(** * coastermelt: the debugger shell's magics (backdoor/shell_magics.py)

    A shallow embedding of the shell commands that drive the drive's ARM
    core through the backdoor channel, and of the device they talk to.

    - [Py]    : the Python primitives the commands rely on
                (str.split, str.join, chr, struct.pack).
    - [Mem]   : the device, its overlay window and the memory-access layer
                (module [mem] of the repository, here modelled from the
                written specification).
    - [Shell] : the commands of [ShellMagics] themselves, one definition
                per method, with the module-level globals [d], [r0], [r1]
                and [includes] threaded explicitly. *)

From Stdlib Require Import ZArith Lia Ascii String.
From stdpp Require Import gmap strings list sorting.

Local Open Scope Z_scope.

(** ** Exceptions

    Python exceptions become values.  The first five constructors are the
    error kinds of the specification; the remaining ones are the Python
    exceptions raised by the primitives the shell uses.  [ArgumentError]
    is the usage error of the argument parser, which names the argument
    and the token it could not convert. *)
Inductive error : Type :=
| TransportError
| MemoryAccessError (address size : Z)
| OverlayStateError (base word_count : Z)
| CodeError (message : string)
| HookPlacementError (hook_address : Z)
| UsageError (message : string)
| ArgumentError (argument token : string)
| ValueError
| OverflowError
| StructError.

Inductive result (A : Type) : Type :=
| Ok (a : A)
| Err (e : error).
Arguments Ok {A} a.
Arguments Err {A} e.

Definition result_bind {A B} (r : result A) (k : A -> result B) : result B :=
  match r with
  | Ok a => k a
  | Err e => Err e
  end.

(** [map(f, xs)] of Python 2: eager, left to right, the first exception wins. *)
Fixpoint result_map {A B} (f : A -> result B) (xs : list A) : result (list B) :=
  match xs with
  | [] => Ok []
  | x :: xs' =>
      result_bind (f x) (fun y =>
      result_bind (result_map f xs') (fun ys => Ok (y :: ys)))
  end.

(** ** Python primitives *)
Module Py.

(** Text is a [string]; binary data (a Python 2 byte string built with
    [chr] or [struct.pack]) is a list of byte values. *)
Definition bytes := list Z.

Definition newline : string := String (ascii_of_nat 10) EmptyString.

(** [c.isspace()] for a character of the unicode text that the shell
    hands to a magic, for the code points a [string] can hold (below
    256): \t, \n, \v, \f, \r, the separators 1C..1F, space, NEL (85) and
    the no-break space (A0). *)
Definition isspace (c : ascii) : bool :=
  let n := N_of_ascii c in
  ((9 <=? n)%N && (n <=? 13)%N) || ((28 <=? n)%N && (n <=? 32)%N)
  || (n =? 133)%N || (n =? 160)%N.

(** [s.split()]: the maximal runs of non-whitespace characters, in order. *)
Fixpoint split (s : string) : list string :=
  match s with
  | EmptyString => []
  | String c s' =>
      if isspace c then split s'
      else
        match s' with
        | EmptyString => [String c EmptyString]
        | String c' _ =>
            if isspace c' then String c EmptyString :: split s'
            else
              match split s' with
              | w :: ws => String c w :: ws
              | [] => [String c EmptyString]
              end
        end
  end.

(** [s.split(sep)] for a one-character separator: never empty. *)
Fixpoint split_on (sep : ascii) (s : string) : list string :=
  match s with
  | EmptyString => [EmptyString]
  | String c s' =>
      if Ascii.eqb c sep then EmptyString :: split_on sep s'
      else
        match split_on sep s' with
        | w :: ws => String c w :: ws
        | [] => [String c EmptyString]
        end
  end.

(** [sep.join(l)] *)
Fixpoint join (sep : string) (l : list string) : string :=
  match l with
  | [] => EmptyString
  | x :: xs =>
      match xs with
      | [] => x
      | _ :: _ => x +:+ sep +:+ join sep xs
      end
  end.

(** [l[0]]: raises (IndexError, here [ValueError]) on the empty list. *)
Definition item0 {A} (l : list A) : result A :=
  match l with
  | x :: _ => Ok x
  | [] => Err ValueError
  end.

Fixpoint lstrip (s : string) : string :=
  match s with
  | EmptyString => EmptyString
  | String c s' => if isspace c then lstrip s' else s
  end.

Fixpoint rstrip (s : string) : string :=
  match s with
  | EmptyString => EmptyString
  | String c s' =>
      match rstrip s' with
      | EmptyString => if isspace c then EmptyString else String c EmptyString
      | r => String c r
      end
  end.

(** [s.strip()] *)
Definition strip (s : string) : string := lstrip (rstrip s).

(** Truth value of a string: non-empty. *)
Definition truthy (s : string) : bool :=
  match s with
  | EmptyString => false
  | String _ _ => true
  end.

(** [c * n] for a one-character string. *)
Fixpoint repeat_char (c : ascii) (n : nat) : string :=
  match n with
  | O => EmptyString
  | S n' => String c (repeat_char c n')
  end.

(** Does the integer fit a C long (64 bits)? *)
Definition fits_long (v : Z) : bool := (- 2 ^ 63 <=? v) && (v <? 2 ^ 63).

(** [chr(v)]: the argument is taken as a C long, OverflowError when it
    does not fit; then ValueError outside range(256). *)
Definition chr (v : Z) : result Z :=
  if (0 <=? v) && (v <? 256) then Ok v
  else if fits_long v then Err ValueError
  else Err OverflowError.

(** [struct.pack] fields: [B] is one unsigned byte, [>I] four bytes, most
    significant first; a value that does not fit raises struct.error. *)
Definition pack_B (v : Z) : result bytes :=
  if (0 <=? v) && (v <? 256) then Ok [v] else Err StructError.

Definition pack_I_be (v : Z) : result bytes :=
  if (0 <=? v) && (v <? 2 ^ 32)
  then Ok [Z.shiftr v 24 mod 256; Z.shiftr v 16 mod 256; Z.shiftr v 8 mod 256; v mod 256]
  else Err StructError.

(** [struct.pack('>BBII', a, b, c, d)] *)
Definition pack_BBII_be (a b c d : Z) : result bytes :=
  result_bind (pack_B a) (fun pa =>
  result_bind (pack_B b) (fun pb =>
  result_bind (pack_I_be c) (fun pc =>
  result_bind (pack_I_be d) (fun pd => Ok (pa ++ pb ++ pc ++ pd))))).

End Py.

(** ** The device and the memory-access layer *)
Module Mem.

(** A command that reached the device, in the order of issue. *)
Inductive op : Type :=
| OpRead (address size : Z)
| OpPeek (address : Z)
| OpPoke (address word : Z)
| OpFillBytes (address size byte : Z)
| OpOverlaySet (base word_count : Z)
| OpOverlayGet
| OpScsi (cdb : list Z) (length : Z).

(** Modelled from the spec: the target behind the global handle [d] (the
    hardware and the [Device] class are not part of the sources).  One
    flat 32-bit address space of bytes, one relocatable RAM window, and
    at most one overlay mapping [(base, word_count)] that makes the window
    visible at [base]; an absent mapping is the state unmapped.  A cell
    that was never written reads as zero.  [ops] is the log of the
    commands that reached the device, oldest first. *)
Record Device : Type := mkDevice {
  memory : gmap Z Z;
  window : gmap Z Z;
  overlay : option (Z * Z);
  ops : list op
}.

Definition with_memory (d : Device) (m : gmap Z Z) : Device :=
  mkDevice m (window d) (overlay d) (ops d).
Definition with_window (d : Device) (w : gmap Z Z) : Device :=
  mkDevice (memory d) w (overlay d) (ops d).
Definition with_overlay (d : Device) (o : option (Z * Z)) : Device :=
  mkDevice (memory d) (window d) o (ops d).
Definition issue (d : Device) (o : op) : Device :=
  mkDevice (memory d) (window d) (overlay d) (ops d ++ [o]).

(** A freshly opened device: nothing written, nothing mapped. *)
Definition fresh : Device := mkDevice ∅ ∅ None [].

(** Commands run against the device and may raise; the device keeps
    whatever was committed before the exception. *)
Definition M (A : Type) : Type := Device -> Device * result A.

Definition ret {A} (a : A) : M A := fun d => (d, Ok a).
Definition raise {A} (e : error) : M A := fun d => (d, Err e).
Definition bind {A B} (m : M A) (k : A -> M B) : M B :=
  fun d =>
    match m d with
    | (d', Ok a) => k a d'
    | (d', Err e) => (d', Err e)
    end.
Definition lift {A} (r : result A) : M A := fun d => (d, r).

Notation "'let*' x ':=' c 'in' k" := (bind c (fun x => k))
  (at level 10, x pattern, c at level 100, k at level 200).

Definition address_limit : Z := 2 ^ 32.
Definition overlay_limit : Z := 0x800000.

(** Is [address] covered by the overlay mapping? *)
Definition overlaid (d : Device) (address : Z) : option Z :=
  match overlay d with
  | Some (base, word_count) =>
      if (base <=? address) && (address <? base + 4 * word_count)
      then Some (address - base) else None
  | None => None
  end.

(** The byte visible at [address]: the window where the overlay covers
    it, the underlying memory elsewhere.  Whatever a cell holds is read
    as a byte. *)
Definition read_byte (d : Device) (address : Z) : Z :=
  match overlaid d address with
  | Some offset => default 0 (window d !! offset) mod 256
  | None => default 0 (memory d !! address) mod 256
  end.

Definition write_byte (d : Device) (address byte : Z) : Device :=
  match overlaid d address with
  | Some offset => with_window d (<[offset := byte]> (window d))
  | None => with_memory d (<[address := byte]> (memory d))
  end.

(** The little-endian word at [address]. *)
Definition word_at (d : Device) (address : Z) : Z :=
  read_byte d address
  + 2 ^ 8 * read_byte d (address + 1)
  + 2 ^ 16 * read_byte d (address + 2)
  + 2 ^ 24 * read_byte d (address + 3).

Definition word_bytes (word : Z) : list Z :=
  [word mod 256; word / 2 ^ 8 mod 256; word / 2 ^ 16 mod 256; word / 2 ^ 24 mod 256].

Fixpoint write_bytes (d : Device) (address : Z) (data : list Z) : Device :=
  match data with
  | [] => d
  | b :: data' => write_bytes (write_byte d address b) (address + 1) data'
  end.

Definition in_bounds (address size : Z) : bool :=
  (0 <=? address) && (0 <=? size) && (address + size <=? address_limit).

(** Modelled from the spec: [read(address, size)] of Memory Access
    (read_block of the missing module mem): [size] bytes from [address],
    no alignment needed; out of range is a MemoryAccessError. *)
Definition read_block (address size : Z) : M (list Z) :=
  fun d =>
    if in_bounds address size
    then (issue d (OpRead address size), Ok (read_byte d <$> seqZ address size))
    else (d, Err (MemoryAccessError address size)).

(** Modelled from the spec: [read_words(address, word_count)] of Memory
    Access, the word-granular read. *)
Definition read_words (address word_count : Z) : M (list Z) :=
  fun d =>
    if in_bounds address (4 * word_count)
    then (issue d (OpRead address (4 * word_count)),
          Ok ((fun i => word_at d (address + 4 * i)) <$> seqZ 0 word_count))
    else (d, Err (MemoryAccessError address (4 * word_count))).

(** Modelled from the spec: the device's native word read (peek of the
    missing module mem). *)
Definition peek (address : Z) : M Z :=
  fun d =>
    if in_bounds address 4
    then (issue d (OpPeek address), Ok (word_at d address))
    else (d, Err (MemoryAccessError address 4)).

(** Modelled from the spec: the device's native word-poke primitive (poke
    of the missing module mem); no read-back. *)
Definition poke (address word : Z) : M unit :=
  fun d =>
    if in_bounds address 4
    then (issue (write_bytes d address (word_bytes word)) (OpPoke address word), Ok tt)
    else (d, Err (MemoryAccessError address 4)).

(** Modelled from the spec: [write_words(address, words)] of Memory Access
    (poke_words of the missing module mem): one poke per word, ascending. *)
Fixpoint poke_words (address : Z) (words : list Z) : M unit :=
  match words with
  | [] => ret tt
  | w :: words' => let* _ := poke address w in poke_words (address + 4) words'
  end.

(** Modelled from the spec: [read_modify_write_or(address, word)] (poke_orr
    of the missing module mem): fetch the current word, OR, write back. *)
Definition poke_orr (address word : Z) : M unit :=
  let* current := peek address in poke address (Z.lor current word).

(** Modelled from the spec: [read_modify_write_and_not(address, word)]
    (poke_bic of the missing module mem): fetch, AND with the complement,
    write back. *)
Definition poke_bic (address word : Z) : M unit :=
  let* current := peek address in poke address (Z.land current (Z.lnot word)).

(** Does the 32-bit pattern consist of one byte, four times? *)
Definition repeated_byte (word : Z) : option Z :=
  let b := word mod 256 in
  if word =? b * 0x01010101 then Some b else None.

(** The bulk-fill device primitive: [size] bytes set to [byte]. *)
Definition fill_bytes (address size byte : Z) : M unit :=
  fun d =>
    if in_bounds address size
    then (issue (write_bytes d address (replicate (Z.to_nat size) byte))
                (OpFillBytes address size byte), Ok tt)
    else (d, Err (MemoryAccessError address size)).

(** The fallback of fill: one word write per element. *)
Fixpoint fill_words (address word : Z) (count : nat) : M unit :=
  match count with
  | O => ret tt
  | S count' => let* _ := poke address word in fill_words (address + 4) word count'
  end.

(** Modelled from the spec: [fill(address, word_count, pattern)] of Memory
    Access (the method [d.fill(address, word, count)] of the missing
    Device class): the bulk primitive when the pattern is a single
    repeated byte, one poke per word otherwise. *)
Definition fill (address word count : Z) : M unit :=
  match repeated_byte word with
  | Some b => fill_bytes address (4 * count) b
  | None => fill_words address word (Z.to_nat count)
  end.

(** Modelled from the spec: [set(base, word_count)] of the Overlay Manager
    (overlay_set of the missing module mem): one device-level operation
    that installs or replaces the mapping; the base must lie in the first
    8MB and the count must be positive, else OverlayStateError. *)
Definition overlay_set (base word_count : Z) : M unit :=
  fun d =>
    if (0 <=? base) && (base <? overlay_limit) && (0 <? word_count)
    then (issue (with_overlay d (Some (base, word_count))) (OpOverlaySet base word_count), Ok tt)
    else (d, Err (OverlayStateError base word_count)).

(** Modelled from the spec: [get()] of the Overlay Manager (overlay_get of
    the missing module mem): the current mapping, [(0, 0)] when nothing is
    installed. *)
Definition overlay_get : M (Z * Z) :=
  fun d =>
    (issue d OpOverlayGet,
     Ok match overlay d with
        | Some (base, word_count) => (base, word_count)
        | None => (0, 0)
        end).

Fixpoint is_prefix (pattern block : list Z) : bool :=
  match pattern, block with
  | [], _ => true
  | _ :: _, [] => false
  | p :: pattern', b :: block' => (p =? b) && is_prefix pattern' block'
  end.

(** A match found by the search: where, and the bytes around it. *)
Record found : Type := mkFound {
  match_address : Z;
  context_before : list Z;
  context_after : list Z
}.

(** One step per byte of the block: [seen] is what lies before the
    current position, [block] what lies from it on. *)
Fixpoint scan (context_length : nat) (pattern seen : list Z) (address : Z) (block : list Z)
  : list found :=
  match block with
  | [] => []
  | b :: block' =>
      (if is_prefix pattern block
       then [mkFound address
                     (drop (length seen - context_length) seen)
                     (take context_length (drop (length pattern) block))]
       else [])
      ++ scan context_length pattern (seen ++ [b]) (address + 1) block'
  end.

(** Modelled from the spec: [find(address, size, pattern)] of the Search
    Engine (search_block of the missing module mem): fetch the block once,
    test every byte offset, report each match with context taken from the
    fetched block only. *)
Definition search_block (context_length : nat) (address size : Z) (substring : list Z)
  : M (list found) :=
  let* block := read_block address size in
  ret (scan context_length substring [] address block).

(** Modelled from the spec: [send(cdb, expected_length)] of the Transport
    (scsi_in of the missing sources).  The payload is the drive's answer,
    which the caller of this model supplies. *)
Definition scsi_in (reply : list Z -> Z -> result (list Z)) (cdb : list Z) (length : Z)
  : M (list Z) :=
  fun d =>
    match reply cdb length with
    | Ok data => (issue d (OpScsi cdb length), Ok data)
    | Err e => (issue d (OpScsi cdb length), Err e)
    end.

(** *** Vocabulary for stating what the commands did *)

Definition u32 (w : Z) : Prop := 0 <= w < 2 ^ 32.

Definition with_ops (d : Device) (l : list op) : Device :=
  mkDevice (memory d) (window d) (overlay d) l.

(** The bytes of a sequence of words, as they lie in memory. *)
Definition encode (words : list Z) : list Z := concat (word_bytes <$> words).

(** The pokes of a word write that starts at [address]. *)
Fixpoint poke_ops (address : Z) (words : list Z) : list op :=
  match words with
  | [] => []
  | w :: words' => OpPoke address w :: poke_ops (address + 4) words'
  end.

(** The commands of a word-by-word read-modify-write with [f] that starts
    at [address], on a device whose contents were those of [d]. *)
Fixpoint rmw_ops (f : Z -> Z -> Z) (d : Device) (address : Z) (words : list Z) : list op :=
  match words with
  | [] => []
  | w :: words' =>
      OpPeek address :: OpPoke address (f (word_at d address) w)
      :: rmw_ops f d (address + 4) words'
  end.

(** Two devices that no read can tell apart. *)
Definition same_contents (d1 d2 : Device) : Prop :=
  memory d1 = memory d2 /\ window d1 = window d2 /\ overlay d1 = overlay d2.

(** The addresses reported by a search. *)
Definition match_addresses (hits : list found) : list Z := match_address <$> hits.

(** Does [pattern] lie at [address] in what the device shows? *)
Definition occurs_at (d : Device) (pattern : list Z) (address : Z) : Prop :=
  forall (j : nat) (b : Z), pattern !! j = Some b -> read_byte d (address + Z.of_nat j) = b.

(** A base the overlay can be placed at: within the first 8MB. *)
Definition valid_base (base : Z) : Prop := 0 <= base < overlay_limit.

(** The words left by a word-by-word read-modify-write with [f]. *)
Fixpoint rmw_words (f : Z -> Z -> Z) (d : Device) (address : Z) (words : list Z) : list Z :=
  match words with
  | [] => []
  | w :: words' => f (word_at d address) w :: rmw_words f d (address + 4) words'
  end.

Definition or_word (current word : Z) : Z := Z.lor current word.
Definition bic_word (current word : Z) : Z := Z.land current (Z.lnot word).

End Mem.

(** ** The shell commands *)
Module Shell.
Import Mem.

(** What the shell imports from the rest of the repository and only
    calls, left open here:
    - [defines]: what [all_defines()] returns;
    - [hexint]: the parser of a hexadecimal argument;
    - [pad]: the address of the scratch pad;
    - [assemble_string address code defines]: the assembler, bytes or CodeError;
    - [words_from_string]: bytes to 32-bit words;
    - [evalasm line r0 defines address]: run a one-liner on the target;
    - [compile_hook handler_address body defines]: the compiler of a hook body;
    - [hook_redirect hook_address handler_address]: the words of the 8-byte redirect;
    - [hook_placement_ok]: the placement rule of the hardware for a hook;
    - [search_context_length]: how many bytes of context a search shows;
    - [scsi_reply cdb length]: what the drive answers to a command block. *)
Class External : Type := {
  defines : Type;
  hexint : string -> result Z;
  pad : Z;
  assemble_string : Z -> string -> defines -> result (list Z);
  words_from_string : list Z -> list Z;
  evalasm : string -> Z -> defines -> Z -> M (Z * Z);
  compile_hook : Z -> string -> defines -> result (list Z);
  hook_redirect : Z -> Z -> list Z;
  hook_placement_ok : Z -> bool;
  search_context_length : nat;
  scsi_reply : list Z -> Z -> result (list Z)
}.

(** The module-level globals of the shell: the device handle and the
    registers bridged by [ea]; [None] is Python's [None]. *)
Record Globals : Type := mkGlobals {
  d : Device;
  r0 : option Z;
  r1 : option Z
}.

(** [x or 0] *)
Definition or0 (x : option Z) : Z :=
  match x with
  | Some v => if v =? 0 then 0 else v
  | None => 0
  end.

(** [cell or default] *)
Definition or_default (cell : option string) (default : string) : string :=
  match cell with
  | Some c => if Py.truthy c then c else default
  | None => default
  end.

(** Modelled from the spec: usage_error_from_code of the missing module
    shell_functions; the code error becomes a usage message that carries
    the compiler's text as it is. *)
Definition usage_error_from_code (e : error) : error :=
  match e with
  | CodeError message => UsageError message
  | _ => e
  end.

(** [try: ... except CodeError, e: usage_error_from_code(e)] *)
Definition except_code_error {A} (m : M A) : M A :=
  fun dev =>
    match m dev with
    | (dev', Err (CodeError message)) =>
        (dev', Err (usage_error_from_code (CodeError message)))
    | other => other
    end.

(** [for i, w in enumerate(l): body(i, w)] *)
Fixpoint for_enumerate {A} (body : Z -> A -> M unit) (i : Z) (l : list A) : M unit :=
  match l with
  | [] => ret tt
  | x :: l' => let* _ := body i x in for_enumerate body (i + 1) l'
  end.

Definition len {A} (l : list A) : Z := Z.of_nat (length l).

Definition default_va : Z := 0x500000.

Section Magics.
Context `{External}.

(** [args.word.extend(map(hexint, cell.split()))] *)
Definition extend_words (word : list Z) (cell : string) : result (list Z) :=
  result_bind (result_map hexint (Py.split cell)) (fun more => Ok (word ++ more)).

(** [%wrf address word...] *)
Definition wrf (address : Z) (word : list Z) (cell : string) (va : Z) : M unit :=
  let* word := lift (extend_words word cell) in
  let* _ := overlay_set va (len word) in
  let* _ := poke_words va word in
  overlay_set address (len word).

(** [%wr address word...] *)
Definition wr (address : Z) (word : list Z) (cell : string) : M unit :=
  let* word := lift (extend_words word cell) in
  poke_words address word.

(** [%orr address word...] *)
Definition orr (address : Z) (word : list Z) (cell : string) : M unit :=
  let* word := lift (extend_words word cell) in
  for_enumerate (fun i w => poke_orr (address + i * 4) w) 0 word.

(** [%bic address word...] *)
Definition bic (address : Z) (word : list Z) (cell : string) : M unit :=
  let* word := lift (extend_words word cell) in
  for_enumerate (fun i w => poke_bic (address + i * 4) w) 0 word.

(** [%fill address word count] *)
Definition fill (address word count : Z) : M unit :=
  Mem.fill address word count.

(** [%find address size byte...]; the result is the rows it prints:
    address, context before, the pattern, context after. *)
Definition find (address size : Z) (byte : list Z) : M (list (Z * list Z * list Z * list Z)) :=
  let* substr := lift (result_map Py.chr byte) in
  let* hits := search_block search_context_length address size substr in
  ret ((fun h => (match_address h, context_before h, substr, context_after h)) <$> hits).

(** [%ovl [address [wordcount]]]; prints the mapping when no address is given. *)
Definition ovl (address : option Z) (wordcount : Z) : M (option (Z * Z)) :=
  match address with
  | None => let* mapping := overlay_get in ret (Some mapping)
  | Some a => let* _ := overlay_set a wordcount in ret None
  end.

(** [%asmf address code...] *)
Definition asmf (address : Z) (code : list string) (cell : string) (defs : defines) (va : Z)
  : M unit :=
  let code := Py.join " " code +:+ Py.newline +:+ cell in
  let* data := lift (assemble_string address code defs) in
  let words := words_from_string data in
  let* _ := overlay_set va (len words) in
  let* _ := poke_words va words in
  overlay_set address (len words).

(** [%ea line]; the result is the register pair it prints. *)
Definition ea (line : string) (defs : defines) (address : Z) (g : Globals)
  : Globals * result (Z * Z) :=
  match evalasm line (or0 (r0 g)) defs address (d g) with
  | (dev', Ok (a, b)) => (mkGlobals dev' (Some a) (Some b), Ok (a, b))
  | (dev', Err (CodeError message)) =>
      (mkGlobals dev' (r0 g) (r1 g), Err (usage_error_from_code (CodeError message)))
  | (dev', Err e) => (mkGlobals dev' (r0 g) (r1 g), Err e)
  end.

(** Modelled from the spec: [install(hook_address, handler_body_source,
    handler_address)] of the Hook Installer (overlay_hook of the missing
    sources): compile the handler, write it to scratch RAM, then put the
    8-byte redirect in place with the map / write / re-map protocol. *)
Definition overlay_hook (hook_address : Z) (body : string) (defs : defines)
    (handler_address : Z) (verbose : bool) : M unit :=
  let* code := lift (compile_hook handler_address body defs) in
  let* _ := (if hook_placement_ok hook_address then ret tt
             else raise (HookPlacementError hook_address)) in
  let* _ := poke_words handler_address (words_from_string code) in
  let redirect := hook_redirect hook_address handler_address in
  let* _ := overlay_set default_va (len redirect) in
  let* _ := poke_words default_va redirect in
  overlay_set hook_address (len redirect).

(** [%hook [-q] hook_address [handler_address]] *)
Definition hook (hook_address : Z) (handler_address : option Z) (quiet : bool)
    (cell : option string) (defs : defines) : M unit :=
  except_code_error
    (overlay_hook hook_address
                  (or_default cell "default_hook(regs)")
                  defs
                  (default (pad + 0x100) handler_address)
                  (negb quiet)).

(** [%sc_read lba [length]]; the result is the data that is dumped. *)
Definition sc_read (lba length : Z) : M (list Z) :=
  let* cdb := lift (Py.pack_BBII_be 0xA8 0 lba length) in
  scsi_in scsi_reply cdb (length * 2048).

End Magics.

(** [' '.join(['=' * 10, key, '=' * max(0, 70 - len(key))])] *)
Definition fc_banner (key : string) : string :=
  Py.join " " [Py.repeat_char "="%char 10; key;
               Py.repeat_char "="%char (Z.to_nat (Z.max 0 (70 - Z.of_nat (String.length key))))].

(** [%fc]: the table [includes] is a dictionary from key to definition.
    The result is the table afterwards and the lines printed (the listing
    follows the order of the table, which Python leaves open). *)
Definition fc (line : string) (cell : option string) (includes : gmap string string)
  : result (gmap string string * list string) :=
  if Py.truthy (default EmptyString cell) then
    let cell := default EmptyString cell in
    let dict_key := Py.join " " (Py.split line) in
    let body := line +:+ " {" +:+ Py.newline +:+ cell +:+ ";" +:+ Py.newline
                +:+ "};" +:+ Py.newline in
    Ok (<[dict_key := body]> includes, [])
  else if negb (Py.truthy (Py.strip line)) then
    Ok (includes,
        concat ((fun kv => [fc_banner kv.1; kv.2; EmptyString]) <$> map_to_list includes))
  else
    result_bind (Py.item0 (Py.split_on "{" (Py.join " " (Py.split line)))) (fun head =>
    result_bind (Py.item0 (Py.split_on "=" head)) (fun dict_key =>
    Ok (<[dict_key := line +:+ ";"]> includes, []))).

(** What a completed flash patch of [ws] at [address] through the scratch
    address [va] looks like: the commands issued, and what is read back. *)
Definition patched (va address : Z) (ws : list Z) (before : Device)
    (run : Device * result unit) : Prop :=
  run.2 = Ok tt
  /\ ops run.1 = ops before ++ [OpOverlaySet va (len ws)] ++ poke_ops va ws
                 ++ [OpOverlaySet address (len ws)]
  /\ (read_block address (4 * len ws) run.1).2 = Ok (encode ws)
  /\ (read_words address (len ws) run.1).2 = Ok ws.

(** What a completed word-by-word read-modify-write of [ws] with [f] from
    [address] on looks like: one peek and one poke per word, at
    [address + 4 * i] for word [i], in ascending order; each word combined
    with what was there; every byte outside the range untouched. *)
Definition modified (f : Z -> Z -> Z) (address : Z) (ws : list Z) (before : Device)
    (run : Device * result unit) : Prop :=
  run.2 = Ok tt
  /\ ops run.1 = ops before ++ rmw_ops f before address ws
  /\ (forall (i : nat) (w : Z), ws !! i = Some w ->
        word_at run.1 (address + 4 * Z.of_nat i)
        = f (word_at before (address + 4 * Z.of_nat i)) w)
  /\ (forall x : Z, x < address \/ address + 4 * len ws <= x ->
        read_byte run.1 x = read_byte before x)
  /\ overlay run.1 = overlay before.

(** The address column of a row printed by [find]. *)
Definition row_address (row : Z * list Z * list Z * list Z) : Z := row.1.1.1.

Definition is_byte (b : Z) : Prop := 0 <= b < 256.

End Shell.

(** ** The specification's wording, for comparison with the code *)
Module Spec.

(** The text up to the first [{] or [=]. *)
Fixpoint up_to_brace_or_equals (s : string) : string :=
  match s with
  | EmptyString => EmptyString
  | String c s' =>
      if Ascii.eqb c "{" || Ascii.eqb c "=" then EmptyString
      else String c (up_to_brace_or_equals s')
  end.

(** The whitespace characters, by code point: tab, line feed, vertical
    tab, form feed, carriage return, file, group, record and unit
    separator, space, next line, no-break space. *)
Definition whitespace_codes : list N := [9; 10; 11; 12; 13; 28; 29; 30; 31; 32; 133; 160]%N.

Definition is_whitespace (c : ascii) : bool :=
  existsb (N.eqb (N_of_ascii c)) whitespace_codes.

(** Whitespace normalization, read left to right: whitespace is dropped,
    and one space is put before a character that follows a gap inside the
    text.  [started]: something was emitted; [gap]: whitespace was seen
    since. *)
Fixpoint normalize_from (started gap : bool) (s : string) : string :=
  match s with
  | EmptyString => EmptyString
  | String c s' =>
      if is_whitespace c then normalize_from started true s'
      else if started && gap then String " " (String c (normalize_from true false s'))
      else String c (normalize_from true false s')
  end.

Definition normalize (s : string) : string := normalize_from false false s.

(** Nothing but whitespace. *)
Fixpoint blank (s : string) : bool :=
  match s with
  | EmptyString => true
  | String c s' => is_whitespace c && blank s'
  end.

Definition has_cell (cell : option string) : bool := Py.truthy (default EmptyString cell).

(** The key of a definition: in cell mode the normalized header line, in
    line mode the normalized text up to the first [{] or [=]; a blank line
    without a cell defines nothing. *)
Definition key_of (line : string) (cell : option string) : option string :=
  if has_cell cell then Some (normalize line)
  else if blank line then None
  else Some (up_to_brace_or_equals (normalize line)).

(** The code fragment stored for a definition. *)
Definition body_of (line : string) (cell : option string) : string :=
  if has_cell cell
  then line +:+ " {" +:+ Py.newline +:+ default EmptyString cell +:+ ";" +:+ Py.newline
       +:+ "};" +:+ Py.newline
  else line +:+ ";".

(** What may follow a character that is not whitespace in a normalized
    text: nothing, another such character, or one space and then such a
    character. *)
Fixpoint spaced (s : string) : bool :=
  match s with
  | EmptyString => true
  | String c s' =>
      if is_whitespace c
      then Ascii.eqb c " "
           && match s' with
              | EmptyString => false
              | String c' _ => negb (is_whitespace c') && spaced s'
              end
      else spaced s'
  end.

(** A text is tidy when its only whitespace is single spaces between
    other characters: none at either end, none doubled. *)
Definition tidy (s : string) : bool :=
  match s with
  | EmptyString => true
  | String c s' => negb (is_whitespace c) && spaced s'
  end.

(** The characters of a text that are not whitespace, in order. *)
Fixpoint ink (s : string) : list ascii :=
  match s with
  | EmptyString => []
  | String c s' => if is_whitespace c then ink s' else c :: ink s'
  end.

(** Four bytes, most significant first, and the number they spell. *)
Definition be32 (v : Z) : list Z :=
  [v / 2 ^ 24 mod 256; v / 2 ^ 16 mod 256; v / 2 ^ 8 mod 256; v mod 256].

Definition be32_value (l : list Z) : Z :=
  match l with
  | [b3; b2; b1; b0] => 2 ^ 24 * b3 + 2 ^ 16 * b2 + 2 ^ 8 * b1 + b0
  | _ => 0
  end.

End Spec.

(** ** A concrete environment, for running the commands *)
Module Bench.
Import Mem Shell.

Definition hex_digit (c : ascii) : option Z :=
  let n := Z.of_N (N_of_ascii c) in
  if (48 <=? n) && (n <=? 57) then Some (n - 48)
  else if (97 <=? n) && (n <=? 102) then Some (n - 87)
  else if (65 <=? n) && (n <=? 70) then Some (n - 55)
  else None.

Fixpoint hex_value (acc : Z) (s : string) : result Z :=
  match s with
  | EmptyString => Ok acc
  | String c s' =>
      match hex_digit c with
      | Some v => hex_value (16 * acc + v) s'
      | None => Err ValueError
      end
  end.

Definition plain_hexint (s : string) : result Z :=
  match s with
  | EmptyString => Err ValueError
  | _ => hex_value 0 s
  end.

(** Zero-padded to whole words, little-endian. *)
Fixpoint words_of_bytes (fuel : nat) (data : list Z) : list Z :=
  match fuel, data with
  | O, _ => []
  | _, [] => []
  | S fuel', b0 :: rest =>
      (b0 + 2 ^ 8 * default 0 (rest !! 0%nat) + 2 ^ 16 * default 0 (rest !! 1%nat)
       + 2 ^ 24 * default 0 (rest !! 2%nat))
      :: words_of_bytes fuel' (drop 3 rest)
  end.

(** An assembler that knows one instruction. *)
Definition tiny_assembler (address : Z) (code : string) (defs : unit) : result (list Z) :=
  if String.eqb (Py.strip code) "nop" then Ok [0xc0; 0x46]
  else Err (CodeError "unknown instruction").

(** A compiler that accepts the default hook body only. *)
Definition tiny_compiler (address : Z) (body : string) (defs : unit) : result (list Z) :=
  if String.eqb body "default_hook(regs)" then Ok [0x70; 0x47; 0xc0; 0x46]
  else Err (CodeError "cannot compile").

(** An evaluator that answers [(r0 + 1, r0)] and understands [next] only. *)
Definition tiny_evalasm (line : string) (r0 : Z) (defs : unit) (address : Z) : M (Z * Z) :=
  if String.eqb line "next" then ret (r0 + 1, r0)
  else raise (CodeError "unknown instruction").

Definition bench : External := {|
  defines := unit;
  hexint := plain_hexint;
  pad := 0x1e00000;
  assemble_string := tiny_assembler;
  words_from_string := fun data => words_of_bytes (length data) data;
  evalasm := tiny_evalasm;
  compile_hook := tiny_compiler;
  hook_redirect := fun hook_address handler_address => [0x47084900; handler_address];
  hook_placement_ok := fun hook_address => hook_address mod 4 =? 0;
  search_context_length := 16%nat;
  scsi_reply := fun cdb length => Ok (replicate (Z.to_nat length) 0)
|}.

(** A one-line definition typed with a tab and runs of spaces. *)
Definition tabbed_line : string := "int" +:+ String (ascii_of_nat 9) "  x  =  1 ".

(** A device whose memory holds AA AA AA at 0x1000. *)
Definition three_aa : Device :=
  write_bytes fresh 0x1000 [0xAA; 0xAA; 0xAA].

(** A device whose word at 0x1000 is 1. *)
Definition word_one : Device := write_bytes fresh 0x1000 (word_bytes 1).

End Bench.

(** ** The raw SCSI commands *)
Module Scsi.
Import Mem Shell.

Section Magics.
Context `{External}.

(** [%sc len cdb...]; the result is the data that is dumped. *)
Definition sc (len : Z) (cdb : list Z) : M (list Z) :=
  let* cdb := lift (result_map Py.chr cdb) in
  scsi_in scsi_reply cdb len.

(** The parser's conversion of one token of the argument [argument]: a
    ValueError of [hexint] becomes the parser's usage error, which names
    the argument and the token. *)
Definition convert (argument token : string) : result Z :=
  match hexint token with
  | Ok v => Ok v
  | Err ValueError => Err (ArgumentError argument token)
  | Err e => Err e
  end.

(** [parse_argstring(self.sc, line)] for a line of plain tokens: the
    first token is [len], the others are [cdb], each converted with
    [hexint] in this order; a line without a token is a usage error. *)
Definition sc_args (line : string) : result (Z * list Z) :=
  match Py.split line with
  | [] => Err (UsageError "too few arguments")
  | token :: tokens =>
      result_bind (convert "len" token) (fun len =>
      result_bind (result_map (convert "cdb") tokens) (fun cdb => Ok (len, cdb)))
  end.

(** [self.sc(line)] *)
Definition sc_line (line : string) : M (list Z) :=
  let* args := lift (sc_args line) in
  sc args.1 args.2.

(** [%eject] *)
Definition eject : M (list Z) := sc_line "0 1b 0 0 0 2".

(** [%sc_sense] *)
Definition sc_sense : M (list Z) := sc_line "20 3 0 0 0 20".

(** [hexint] reads a plain hexadecimal number as such. *)
Definition reads_plain_hex : Prop :=
  forall (s : string) (v : Z), Bench.plain_hexint s = Ok v -> hexint s = Ok v.

End Magics.

End Scsi.

(** ** Vocabulary for the properties of texts and registers *)
Module Words.
Import Mem Shell.

(** Does the character occur in the text? *)
Fixpoint contains (c : ascii) (s : string) : bool :=
  match s with
  | EmptyString => false
  | String c' s' => Ascii.eqb c' c || contains c s'
  end.

(** Is the first text the beginning of the second? *)
Fixpoint starts (p s : string) : bool :=
  match p, s with
  | EmptyString, _ => true
  | String _ _, EmptyString => false
  | String a p', String b s' => Ascii.eqb a b && starts p' s'
  end.

Fixpoint has_space (s : string) : bool :=
  match s with
  | EmptyString => false
  | String c s' => Py.isspace c || has_space s'
  end.

(** A word: not empty, no whitespace. *)
Definition is_word (w : string) : bool := Py.truthy w && negb (has_space w).

(** The registers are set together: both still [None], or both a number. *)
Definition paired (g : Globals) : Prop := is_Some (r0 g) <-> is_Some (r1 g).

(** A byte that [chr] refuses. *)
Definition not_byte (b : Z) : Prop := ~ is_byte b.

End Words.

(** * Properties *)

(** ** The byte view of the device *)
Module MemFacts.
Import Mem.

Lemma read_byte_range (d : Device) (a : Z) : 0 <= read_byte d a < 256.
Proof. unfold read_byte. destruct (overlaid d a); apply Z.mod_pos_bound; lia. Qed.

Lemma word_at_range (d : Device) (a : Z) : u32 (word_at d a).
Proof.
  unfold u32, word_at.
  pose proof (read_byte_range d a). pose proof (read_byte_range d (a + 1)).
  pose proof (read_byte_range d (a + 2)). pose proof (read_byte_range d (a + 3)).
  lia.
Qed.

Lemma overlaid_with_ops (d : Device) (l : list op) (a : Z) :
  overlaid (with_ops d l) a = overlaid d a.
Proof. reflexivity. Qed.

Lemma read_byte_with_ops (d : Device) (l : list op) (a : Z) :
  read_byte (with_ops d l) a = read_byte d a.
Proof. reflexivity. Qed.

Lemma word_at_with_ops (d : Device) (l : list op) (a : Z) :
  word_at (with_ops d l) a = word_at d a.
Proof. reflexivity. Qed.

Lemma issue_with_ops (d : Device) (o : op) : issue d o = with_ops d (ops d ++ [o]).
Proof. reflexivity. Qed.

Lemma with_ops_idem (d : Device) (l l' : list op) : with_ops (with_ops d l) l' = with_ops d l'.
Proof. reflexivity. Qed.

Lemma with_ops_same (d : Device) : with_ops d (ops d) = d.
Proof. by destruct d. Qed.

Lemma write_byte_with_ops (d : Device) (l : list op) (a b : Z) :
  write_byte (with_ops d l) a b = with_ops (write_byte d a b) l.
Proof. unfold write_byte. rewrite overlaid_with_ops. by destruct (overlaid d a). Qed.

Lemma write_bytes_with_ops (data : list Z) (d : Device) (l : list op) (a : Z) :
  write_bytes (with_ops d l) a data = with_ops (write_bytes d a data) l.
Proof.
  revert d a. induction data as [|b data IH]; intros d a; simpl; [done|].
  by rewrite write_byte_with_ops, IH.
Qed.

Lemma overlay_write_byte (d : Device) (a b : Z) : overlay (write_byte d a b) = overlay d.
Proof. unfold write_byte. by destruct (overlaid d a). Qed.

Lemma ops_write_byte (d : Device) (a b : Z) : ops (write_byte d a b) = ops d.
Proof. unfold write_byte. by destruct (overlaid d a). Qed.

Lemma overlay_write_bytes (data : list Z) (d : Device) (a : Z) :
  overlay (write_bytes d a data) = overlay d.
Proof.
  revert d a. induction data as [|b data IH]; intros d a; simpl; [done|].
  by rewrite IH, overlay_write_byte.
Qed.

Lemma ops_write_bytes (data : list Z) (d : Device) (a : Z) :
  ops (write_bytes d a data) = ops d.
Proof.
  revert d a. induction data as [|b data IH]; intros d a; simpl; [done|].
  by rewrite IH, ops_write_byte.
Qed.

Lemma overlaid_write_byte (d : Device) (a b x : Z) :
  overlaid (write_byte d a b) x = overlaid d x.
Proof. unfold overlaid. by rewrite overlay_write_byte. Qed.

Lemma overlaid_inj (d : Device) (x y ox oy : Z) :
  overlaid d x = Some ox -> overlaid d y = Some oy -> ox = oy -> x = y.
Proof.
  unfold overlaid. destruct (overlay d) as [[base n]|]; [|done].
  repeat case_match; intros; simplify_eq; lia.
Qed.

(** A written byte is read back; every other address keeps its byte. *)
Lemma read_write_byte (d : Device) (a b x : Z) :
  read_byte (write_byte d a b) x = if decide (x = a) then b mod 256 else read_byte d x.
Proof.
  unfold read_byte. rewrite overlaid_write_byte.
  unfold write_byte.
  destruct (overlaid d a) as [oa|] eqn:Ha, (overlaid d x) as [ox|] eqn:Hx; simpl;
    case_decide as Hd; subst; simplify_eq; try by rewrite ?lookup_insert_eq.
  - rewrite lookup_insert_ne; [done|].
    intros ->. apply Hd. symmetry. eapply overlaid_inj; eauto.
  - by rewrite lookup_insert_ne.
Qed.

Lemma read_write_bytes_outside (data : list Z) (d : Device) (a x : Z) :
  x < a \/ a + Z.of_nat (length data) <= x ->
  read_byte (write_bytes d a data) x = read_byte d x.
Proof.
  revert d a. induction data as [|b data IH]; intros d a Hx; simpl in *; [done|].
  rewrite IH by lia. rewrite read_write_byte. case_decide; [lia|done].
Qed.

Lemma read_write_bytes_inside (data : list Z) (d : Device) (a : Z) (i : nat) (b : Z) :
  data !! i = Some b ->
  read_byte (write_bytes d a data) (a + Z.of_nat i) = b mod 256.
Proof.
  revert d a i. induction data as [|c data IH]; intros d a i Hi; [done|].
  destruct i as [|i]; cbn [write_bytes].
  - simpl in Hi. simplify_eq. rewrite read_write_bytes_outside by lia.
    rewrite read_write_byte. case_decide; [done|lia].
  - replace (a + Z.of_nat (S i)) with (a + 1 + Z.of_nat i) by lia.
    by apply IH.
Qed.

Lemma write_bytes_app (l1 l2 : list Z) (d : Device) (a : Z) :
  write_bytes d a (l1 ++ l2) = write_bytes (write_bytes d a l1) (a + Z.of_nat (length l1)) l2.
Proof.
  revert d a. induction l1 as [|b l1 IH]; intros d a; cbn [app write_bytes length].
  - by rewrite Z.add_0_r.
  - rewrite IH, Nat2Z.inj_succ.
    by replace (a + 1 + Z.of_nat (length l1)) with (a + Z.succ (Z.of_nat (length l1))) by lia.
Qed.

(** *** Words *)

Lemma word_bytes_bytes (w b : Z) : b ∈ word_bytes w -> 0 <= b < 256.
Proof.
  unfold word_bytes. rewrite !elem_of_cons, elem_of_nil.
  intros [->|[->|[->|[->|[]]]]]; apply Z.mod_pos_bound; lia.
Qed.

Lemma word_bytes_combine (w : Z) :
  w mod 256 + 2 ^ 8 * (w / 2 ^ 8 mod 256) + 2 ^ 16 * (w / 2 ^ 16 mod 256)
  + 2 ^ 24 * (w / 2 ^ 24 mod 256) = w mod 2 ^ 32.
Proof.
  change (2 ^ 8) with 256. change (2 ^ 16) with 65536.
  change (2 ^ 24) with 16777216. change (2 ^ 32) with 4294967296.
  Z.div_mod_to_equations. lia.
Qed.

Lemma encode_cons (w : Z) (ws : list Z) : encode (w :: ws) = word_bytes w ++ encode ws.
Proof. reflexivity. Qed.

Lemma length_encode (ws : list Z) : length (encode ws) = (4 * length ws)%nat.
Proof.
  induction ws as [|w ws IH]; [done|].
  rewrite encode_cons, length_app, IH. simpl. lia.
Qed.

Lemma encode_bytes (ws : list Z) (j : nat) (b : Z) : encode ws !! j = Some b -> 0 <= b < 256.
Proof.
  revert j. induction ws as [|w ws IH]; intros j; [done|].
  rewrite encode_cons, lookup_app_Some. intros [Hj|[_ Hj]].
  - eapply word_bytes_bytes, list_elem_of_lookup_2, Hj.
  - eapply IH, Hj.
Qed.

Lemma lookup_encode (ws : list Z) (i k : nat) (w : Z) :
  ws !! i = Some w -> (k < 4)%nat -> encode ws !! (4 * i + k)%nat = word_bytes w !! k.
Proof.
  revert i. induction ws as [|v ws IH]; intros i Hi Hk; [done|].
  rewrite encode_cons. destruct i as [|i]; simpl in Hi.
  - simplify_eq. rewrite lookup_app_l; [f_equal; lia|simpl; lia].
  - rewrite lookup_app_r by (simpl; lia).
    replace (4 * S i + k - length (word_bytes v))%nat with (4 * i + k)%nat by (simpl; lia).
    by apply IH.
Qed.

(** A word written at [a + 4i] is the word read there. *)
Lemma word_at_write_words (ws : list Z) (d : Device) (a : Z) (i : nat) (w : Z) :
  ws !! i = Some w ->
  word_at (write_bytes d a (encode ws)) (a + 4 * Z.of_nat i) = w mod 2 ^ 32.
Proof.
  intros Hi. unfold word_at.
  pose proof (lookup_encode ws i 0 w Hi ltac:(lia)) as H0.
  pose proof (lookup_encode ws i 1 w Hi ltac:(lia)) as H1.
  pose proof (lookup_encode ws i 2 w Hi ltac:(lia)) as H2.
  pose proof (lookup_encode ws i 3 w Hi ltac:(lia)) as H3.
  simpl (word_bytes w !! _) in *.
  replace (a + 4 * Z.of_nat i) with (a + Z.of_nat (4 * i + 0)) at 1 by lia.
  replace (a + 4 * Z.of_nat i + 1) with (a + Z.of_nat (4 * i + 1)) by lia.
  replace (a + 4 * Z.of_nat i + 2) with (a + Z.of_nat (4 * i + 2)) by lia.
  replace (a + 4 * Z.of_nat i + 3) with (a + Z.of_nat (4 * i + 3)) by lia.
  rewrite (read_write_bytes_inside _ _ _ _ _ H0), (read_write_bytes_inside _ _ _ _ _ H1),
    (read_write_bytes_inside _ _ _ _ _ H2), (read_write_bytes_inside _ _ _ _ _ H3).
  rewrite !Z.mod_mod by lia. apply word_bytes_combine.
Qed.

Lemma word_at_write_word (d : Device) (a w : Z) :
  word_at (write_bytes d a (word_bytes w)) a = w mod 2 ^ 32.
Proof.
  pose proof (word_at_write_words [w] d a 0 w eq_refl) as H.
  change (encode [w]) with (word_bytes w ++ []) in H.
  change (4 * Z.of_nat 0) with 0 in H.
  by rewrite app_nil_r, Z.add_0_r in H.
Qed.

Lemma u32_mod (w : Z) : u32 w -> w mod 2 ^ 32 = w.
Proof. intros Hw. apply Z.mod_small, Hw. Qed.

(** *** Running the memory commands *)

Lemma in_bounds_true (a size : Z) :
  in_bounds a size = true <-> 0 <= a /\ 0 <= size /\ a + size <= 2 ^ 32.
Proof. unfold in_bounds, address_limit. rewrite !andb_true_iff, !Z.leb_le. tauto. Qed.

Lemma poke_run (a w : Z) (d : Device) :
  in_bounds a 4 = true ->
  poke a w d = (with_ops (write_bytes d a (word_bytes w)) (ops d ++ [OpPoke a w]), Ok tt).
Proof.
  intros Hb. unfold poke. rewrite Hb, issue_with_ops. by rewrite ops_write_bytes.
Qed.

Lemma peek_run (a : Z) (d : Device) :
  in_bounds a 4 = true ->
  peek a d = (with_ops d (ops d ++ [OpPeek a]), Ok (word_at d a)).
Proof. intros Hb. unfold peek. by rewrite Hb. Qed.

Lemma poke_words_run (ws : list Z) (a : Z) (d : Device) :
  in_bounds a (4 * Z.of_nat (length ws)) = true ->
  poke_words a ws d
  = (with_ops (write_bytes d a (encode ws)) (ops d ++ poke_ops a ws), Ok tt).
Proof.
  revert a d. induction ws as [|w ws IH]; intros a d Hb.
  - simpl. unfold ret. by rewrite app_nil_r, with_ops_same.
  - apply in_bounds_true in Hb. cbn [length] in Hb. rewrite Nat2Z.inj_succ in Hb.
    cbn [poke_words]. unfold bind.
    rewrite poke_run by (apply in_bounds_true; lia).
    rewrite IH by (apply in_bounds_true; lia).
    rewrite encode_cons, write_bytes_app, write_bytes_with_ops, with_ops_idem.
    cbn [ops with_ops poke_ops]. rewrite <- app_assoc. simpl.
    do 3 f_equal.
Qed.

Lemma overlay_set_run (b n : Z) (d : Device) :
  valid_base b -> 0 < n ->
  overlay_set b n d
  = (with_ops (with_overlay d (Some (b, n))) (ops d ++ [OpOverlaySet b n]), Ok tt).
Proof.
  intros [Hb1 Hb2] Hn. unfold overlay_set.
  destruct (0 <=? b) eqn:E1; [|lia]. destruct (b <? overlay_limit) eqn:E2; [|lia].
  destruct (0 <? n) eqn:E3; [|lia]. reflexivity.
Qed.

Lemma overlay_set_rejected (b n : Z) (d : Device) :
  ~ (valid_base b /\ 0 < n) -> overlay_set b n d = (d, Err (OverlayStateError b n)).
Proof.
  intros Hno. unfold overlay_set, valid_base in *.
  destruct (0 <=? b) eqn:E1, (b <? overlay_limit) eqn:E2, (0 <? n) eqn:E3; simpl; try done.
  exfalso. apply Hno. lia.
Qed.

(** Moving the overlay carries the window's bytes along. *)
Lemma read_byte_remap (d : Device) (b1 b2 n j : Z) :
  overlay d = Some (b1, n) -> 0 <= j < 4 * n ->
  read_byte (with_overlay d (Some (b2, n))) (b2 + j) = read_byte d (b1 + j).
Proof.
  intros Ho Hj. unfold read_byte, overlaid. simpl. rewrite Ho.
  destruct (b2 <=? b2 + j) eqn:E1; [|lia]. destruct (b2 + j <? b2 + 4 * n) eqn:E2; [|lia].
  destruct (b1 <=? b1 + j) eqn:E3; [|lia]. destruct (b1 + j <? b1 + 4 * n) eqn:E4; [|lia].
  simpl. do 3 f_equal. lia.
Qed.

Lemma word_at_remap (d : Device) (b1 b2 n i : Z) :
  overlay d = Some (b1, n) -> 0 <= i < n ->
  word_at (with_overlay d (Some (b2, n))) (b2 + 4 * i) = word_at d (b1 + 4 * i).
Proof.
  intros Ho Hi. unfold word_at.
  rewrite <- !Z.add_assoc.
  by rewrite !(read_byte_remap d b1 b2 n) by (done || lia).
Qed.

Lemma fmap_seqZ_eq {A} (f : Z -> A) (m : Z) (l : list A) :
  (forall (i : nat) (x : A), l !! i = Some x -> f (m + Z.of_nat i) = x) ->
  f <$> seqZ m (Z.of_nat (length l)) = l.
Proof.
  intros Hf. apply list_eq. intros i. rewrite list_lookup_fmap.
  destruct (l !! i) as [x|] eqn:E.
  - rewrite lookup_seqZ_lt by (apply lookup_lt_Some in E; lia).
    simpl. f_equal. by apply Hf.
  - rewrite lookup_seqZ_ge by (apply lookup_ge_None in E; lia). done.
Qed.

(** Reading back a range that was just written. *)
Lemma read_bytes_written (d : Device) (a : Z) (ws : list Z) :
  read_byte (write_bytes d a (encode ws)) <$> seqZ a (4 * Z.of_nat (length ws)) = encode ws.
Proof.
  replace (4 * Z.of_nat (length ws)) with (Z.of_nat (length (encode ws)))
    by (rewrite length_encode; lia).
  apply fmap_seqZ_eq. intros i b Hi.
  rewrite (read_write_bytes_inside _ _ _ _ _ Hi).
  apply Z.mod_small. eapply encode_bytes, Hi.
Qed.

Lemma read_words_written (d : Device) (a : Z) (ws : list Z) :
  Forall u32 ws ->
  (fun i => word_at (write_bytes d a (encode ws)) (a + 4 * i)) <$> seqZ 0 (Z.of_nat (length ws))
  = ws.
Proof.
  intros Hws. apply (fmap_seqZ_eq (fun i => word_at _ (a + 4 * i))). intros i w Hi.
  rewrite Z.add_0_l, (word_at_write_words _ _ _ _ _ Hi).
  apply u32_mod. eapply Forall_lookup_1; eauto.
Qed.

End MemFacts.

(** ** The commands *)
Module ShellFacts.
Import Mem Shell MemFacts.

Lemma len_pos {A} (l : list A) : l <> [] -> 0 < len l.
Proof. destruct l; [done|]. unfold len. simpl. lia. Qed.

(** The three steps shared by [wrf] and [asmf]. *)
Lemma patch_run (va address : Z) (ws : list Z) (dev : Device) :
  valid_base va -> valid_base address -> ws <> [] -> Forall u32 ws ->
  in_bounds va (4 * len ws) = true -> in_bounds address (4 * len ws) = true ->
  patched va address ws dev
    ((let* _ := overlay_set va (len ws) in
      let* _ := poke_words va ws in
      overlay_set address (len ws)) dev).
Proof.
  intros Hva Haddr Hne Hws Hbva Hbaddr.
  pose proof (len_pos ws Hne) as Hlen.
  unfold bind. rewrite (overlay_set_run va) by done.
  rewrite poke_words_run by done.
  rewrite (overlay_set_run address) by done.
  set (d1 := with_ops (with_overlay dev (Some (va, len ws))) _).
  set (d2 := with_ops (write_bytes d1 va (encode ws)) _).
  assert (overlay d2 = Some (va, len ws)) as Ho2.
  { unfold d2. cbn [overlay with_ops]. by rewrite overlay_write_bytes. }
  unfold patched. cbn [fst snd]. repeat split.
  - cbn [ops with_ops]. unfold d2, d1. cbn [ops with_ops]. by rewrite <- !app_assoc.
  - unfold read_block. rewrite Hbaddr. cbn [snd]. f_equal.
    replace (4 * len ws) with (Z.of_nat (length (encode ws)))
      by (rewrite length_encode; unfold len; lia).
    apply fmap_seqZ_eq. intros i b Hi.
    rewrite read_byte_with_ops.
    rewrite (read_byte_remap d2 va address (len ws)); [|done|].
    + unfold d2. rewrite read_byte_with_ops, (read_write_bytes_inside _ _ _ _ _ Hi).
      apply Z.mod_small. eapply encode_bytes, Hi.
    + apply lookup_lt_Some in Hi. rewrite length_encode in Hi. unfold len. lia.
  - unfold read_words. rewrite Hbaddr. cbn [snd]. f_equal.
    apply (fmap_seqZ_eq (fun i => word_at _ (address + 4 * i))). intros i w Hi.
    rewrite Z.add_0_l, word_at_with_ops.
    rewrite (word_at_remap d2 va address (len ws)); [|done|].
    + unfold d2. rewrite word_at_with_ops, (word_at_write_words _ _ _ _ _ Hi).
      apply u32_mod. eapply Forall_lookup_1; eauto.
    + apply lookup_lt_Some in Hi. unfold len. lia.
Qed.

(** *** Bits of 32-bit words *)

Lemma u32_land_ones (w : Z) : u32 w <-> Z.land w (Z.ones 32) = w.
Proof.
  rewrite Z.land_ones by lia. unfold u32. split.
  - intros Hw. by apply Z.mod_small.
  - intros <-. apply Z.mod_pos_bound. lia.
Qed.

Lemma u32_or_word (a b : Z) : u32 a -> u32 b -> u32 (or_word a b).
Proof.
  rewrite !u32_land_ones. intros Ha Hb. unfold or_word.
  by rewrite Z.land_lor_distr_l, Ha, Hb.
Qed.

Lemma u32_bic_word (a b : Z) : u32 a -> u32 (bic_word a b).
Proof.
  rewrite !u32_land_ones. intros Ha. unfold bic_word.
  by rewrite <- Z.land_assoc, (Z.land_comm (Z.lnot b)), Z.land_assoc, Ha.
Qed.

Lemma bic_or_word (a m : Z) : bic_word (or_word a m) m = bic_word a m.
Proof.
  unfold bic_word, or_word. apply Z.bits_inj'. intros i Hi.
  rewrite !Z.land_spec, Z.lor_spec, Z.lnot_spec by done.
  by destruct (Z.testbit a i), (Z.testbit m i).
Qed.

Lemma bic_word_id (a m : Z) : bic_word a m = a <-> Z.land a m = 0.
Proof.
  unfold bic_word. split; intros Heq; apply Z.bits_inj'; intros i Hi.
  - rewrite Z.bits_0, Z.land_spec.
    apply (f_equal (fun x => Z.testbit x i)) in Heq.
    rewrite Z.land_spec, Z.lnot_spec in Heq by done.
    by destruct (Z.testbit a i), (Z.testbit m i).
  - rewrite Z.land_spec, Z.lnot_spec by done.
    apply (f_equal (fun x => Z.testbit x i)) in Heq.
    rewrite Z.bits_0, Z.land_spec in Heq.
    by destruct (Z.testbit a i), (Z.testbit m i).
Qed.

(** *** Read-modify-write, one word and many *)

Lemma rmw_run (f : Z -> Z -> Z) (a w : Z) (d : Device) :
  in_bounds a 4 = true ->
  (let* current := peek a in poke a (f current w)) d
  = (with_ops (write_bytes d a (word_bytes (f (word_at d a) w)))
              (ops d ++ [OpPeek a; OpPoke a (f (word_at d a) w)]), Ok tt).
Proof.
  intros Hb. unfold bind. rewrite peek_run, poke_run by done.
  rewrite write_bytes_with_ops, with_ops_idem. cbn [ops with_ops].
  by rewrite <- app_assoc.
Qed.

Lemma word_at_outside (d : Device) (a x : Z) (data : list Z) :
  x + 4 <= a \/ a + Z.of_nat (length data) <= x ->
  word_at (write_bytes d a data) x = word_at d x.
Proof.
  intros Hx. unfold word_at. by rewrite !read_write_bytes_outside by lia.
Qed.

Lemma rmw_ops_ext (f : Z -> Z -> Z) (d d' : Device) (ws : list Z) (a : Z) :
  (forall x, a <= x -> word_at d' x = word_at d x) ->
  rmw_ops f d' a ws = rmw_ops f d a ws /\ rmw_words f d' a ws = rmw_words f d a ws.
Proof.
  revert a. induction ws as [|w ws IH]; intros a Hext; [done|].
  cbn [rmw_ops rmw_words]. rewrite Hext by lia.
  destruct (IH (a + 4)) as [-> ->]; [|done]. intros x Hx. apply Hext. lia.
Qed.

Lemma length_rmw_words (f : Z -> Z -> Z) (d : Device) (ws : list Z) (a : Z) :
  length (rmw_words f d a ws) = length ws.
Proof. revert a. induction ws as [|w ws IH]; intros a; simpl; [done|]. by rewrite IH. Qed.

Lemma lookup_rmw_words (f : Z -> Z -> Z) (d : Device) (ws : list Z) (a : Z) (i : nat) (w : Z) :
  ws !! i = Some w ->
  rmw_words f d a ws !! i = Some (f (word_at d (a + 4 * Z.of_nat i)) w).
Proof.
  revert a i. induction ws as [|v ws IH]; intros a i Hi; [done|].
  destruct i as [|i]; cbn [rmw_words]; simpl in Hi.
  - simplify_eq. simpl. by rewrite Z.add_0_r.
  - simpl. rewrite (IH (a + 4) i Hi). do 3 f_equal. lia.
Qed.

(** The loop [for i, w in enumerate(ws): rmw(address + i*4, w)]. *)
Lemma rmw_loop_run (f : Z -> Z -> Z) (address : Z) (ws : list Z) (i0 : Z) (d : Device) :
  in_bounds (address + i0 * 4) (4 * len ws) = true ->
  for_enumerate (fun i w => let* current := peek (address + i * 4) in
                            poke (address + i * 4) (f current w)) i0 ws d
  = (with_ops (write_bytes d (address + i0 * 4)
                 (encode (rmw_words f d (address + i0 * 4) ws)))
              (ops d ++ rmw_ops f d (address + i0 * 4) ws), Ok tt).
Proof.
  revert i0 d. induction ws as [|w ws IH]; intros i0 d Hb.
  - simpl. unfold ret. by rewrite app_nil_r, with_ops_same.
  - apply in_bounds_true in Hb. unfold len in Hb. cbn [length] in Hb.
    rewrite Nat2Z.inj_succ in Hb.
    cbn [for_enumerate]. unfold bind at 1.
    rewrite rmw_run by (apply in_bounds_true; lia).
    rewrite IH by (apply in_bounds_true; unfold len; lia).
    replace (address + (i0 + 1) * 4) with (address + i0 * 4 + 4) by lia.
    set (a := address + i0 * 4).
    set (d1 := with_ops (write_bytes d a _) _).
    destruct (rmw_ops_ext f d d1 ws (a + 4)) as [-> ->].
    { intros x Hx. unfold d1. rewrite word_at_with_ops.
      apply word_at_outside. simpl. lia. }
    cbn [rmw_ops rmw_words]. rewrite encode_cons, write_bytes_app.
    unfold d1. rewrite write_bytes_with_ops, with_ops_idem.
    cbn [ops with_ops]. rewrite <- app_assoc. simpl. do 3 f_equal.
Qed.

Lemma modified_run (f : Z -> Z -> Z) (address : Z) (ws : list Z) (dev : Device) :
  (forall a b, u32 a -> u32 b -> u32 (f a b)) ->
  Forall u32 ws -> in_bounds address (4 * len ws) = true ->
  modified f address ws dev
    (for_enumerate (fun i w => let* current := peek (address + i * 4) in
                               poke (address + i * 4) (f current w)) 0 ws dev).
Proof.
  intros Hf Hws Hb.
  rewrite rmw_loop_run by (by rewrite Z.add_0_r).
  rewrite Z.add_0_r. unfold modified. cbn [fst snd ops with_ops]. repeat split.
  - intros i w Hi. rewrite word_at_with_ops.
    rewrite (word_at_write_words _ _ _ _ _ (lookup_rmw_words f dev ws address i w Hi)).
    apply u32_mod, Hf; [apply word_at_range|]. eapply Forall_lookup_1; eauto.
  - intros x Hx. rewrite read_byte_with_ops. apply read_write_bytes_outside.
    rewrite length_encode, length_rmw_words. unfold len in Hx. lia.
  - cbn [overlay with_ops]. by rewrite overlay_write_bytes.
Qed.

(** *** Fill: the bulk path and the word-by-word path *)

Lemma fill_words_poke_words (n : nat) (a w : Z) (d : Device) :
  fill_words a w n d = poke_words a (replicate n w) d.
Proof.
  revert a d. induction n as [|n IH]; intros a d; [done|].
  cbn [fill_words replicate poke_words]. unfold bind.
  destruct (poke a w d) as [d' [[]|e]]; [apply IH|done].
Qed.

Lemma repeated_byte_Some (w b : Z) :
  repeated_byte w = Some b -> w = b * 0x01010101 /\ 0 <= b < 256.
Proof.
  unfold repeated_byte. case_match eqn:E; [|done]. intros [= <-].
  apply Z.eqb_eq in E. split; [done|]. apply Z.mod_pos_bound. lia.
Qed.

Lemma word_bytes_repeated (b : Z) :
  0 <= b < 256 -> word_bytes (b * 0x01010101) = [b; b; b; b].
Proof.
  intros Hb. unfold word_bytes.
  change (2 ^ 8) with 256. change (2 ^ 16) with 65536. change (2 ^ 24) with 16777216.
  repeat f_equal; Z.div_mod_to_equations; lia.
Qed.

Lemma encode_replicate (n : nat) (b : Z) :
  0 <= b < 256 -> encode (replicate n (b * 0x01010101)) = replicate (4 * n) b.
Proof.
  intros Hb. induction n as [|n IH]; [done|].
  cbn [replicate]. rewrite encode_cons, IH, word_bytes_repeated by done.
  replace (4 * S n)%nat with (4 + 4 * n)%nat by lia. reflexivity.
Qed.

Lemma fill_bytes_run (a size b : Z) (d : Device) :
  in_bounds a size = true ->
  fill_bytes a size b d
  = (with_ops (write_bytes d a (replicate (Z.to_nat size) b))
              (ops d ++ [OpFillBytes a size b]), Ok tt).
Proof.
  intros Hb. unfold fill_bytes. rewrite Hb, issue_with_ops. by rewrite ops_write_bytes.
Qed.

Lemma fill_words_run (a w n : Z) (d : Device) :
  0 <= n -> in_bounds a (4 * n) = true ->
  fill_words a w (Z.to_nat n) d
  = (with_ops (write_bytes d a (encode (replicate (Z.to_nat n) w)))
              (ops d ++ poke_ops a (replicate (Z.to_nat n) w)), Ok tt).
Proof.
  intros Hn Hb. rewrite fill_words_poke_words. apply poke_words_run.
  by rewrite length_replicate, Z2Nat.id.
Qed.

Lemma same_contents_with_ops (d1 d2 : Device) (l1 l2 : list op) :
  same_contents d1 d2 -> same_contents (with_ops d1 l1) (with_ops d2 l2).
Proof. by intros (? & ? & ?). Qed.

Lemma same_contents_refl (d : Device) : same_contents d d.
Proof. done. Qed.

(** *** Searching *)

Lemma is_prefix_lookup (pattern block : list Z) :
  is_prefix pattern block = true
  <-> forall (j : nat) (b : Z), pattern !! j = Some b -> block !! j = Some b.
Proof.
  revert block. induction pattern as [|p pattern IH]; intros block; [done|].
  destruct block as [|b0 block]; cbn [is_prefix].
  - split; [done|]. intros Hall. by specialize (Hall 0%nat p eq_refl).
  - rewrite andb_true_iff, Z.eqb_eq, IH. split.
    + intros [-> Hrest] [|j] b Hj; simpl in *; [done|by apply Hrest].
    + intros Hall. split.
      * specialize (Hall 0%nat p eq_refl). by simplify_eq/=.
      * intros j b Hj. by apply (Hall (S j)).
Qed.

Lemma elem_of_scan (ctx : nat) (pattern : list Z) (block seen : list Z) (a x : Z) :
  x ∈ match_addresses (scan ctx pattern seen a block)
  <-> exists i : nat, x = a + Z.of_nat i /\ (i < length block)%nat
                      /\ is_prefix pattern (drop i block) = true.
Proof.
  revert seen a. induction block as [|b block IH]; intros seen a.
  - cbn. rewrite elem_of_nil. split; [done|]. intros (i & _ & Hi & _). lia.
  - cbn [scan]. unfold match_addresses in *. rewrite fmap_app, elem_of_app, IH. split.
    + intros [Hhead|(i & -> & Hi & Hp)].
      * destruct (is_prefix pattern (b :: block)) eqn:E; [|by apply elem_of_nil in Hhead].
        apply list_elem_of_singleton in Hhead. exists 0%nat. simpl in *. split; [lia|].
        split; [lia|done].
      * exists (S i). simpl. split; [lia|]. split; [lia|done].
    + intros ([|i] & -> & Hi & Hp); simpl in *.
      * left. rewrite Hp. apply list_elem_of_singleton. simpl. lia.
      * right. exists i. split; [lia|]. split; [lia|done].
Qed.

Lemma scan_sorted (ctx : nat) (pattern : list Z) (block seen : list Z) (a : Z) :
  StronglySorted Z.lt (match_addresses (scan ctx pattern seen a block)).
Proof.
  revert seen a. induction block as [|b block IH]; intros seen a; [constructor|].
  cbn [scan]. unfold match_addresses in *. rewrite fmap_app.
  destruct (is_prefix pattern (b :: block)); [|apply IH].
  simpl. constructor; [apply IH|].
  apply list.Forall_forall. intros x Hx.
  apply (elem_of_scan ctx pattern block) in Hx as (i & -> & _). lia.
Qed.

(** The addresses found do not depend on how much context is shown. *)
Lemma scan_addresses_context (ctx ctx' : nat) (pattern : list Z) (block seen seen' : list Z)
    (a : Z) :
  match_addresses (scan ctx pattern seen a block)
  = match_addresses (scan ctx' pattern seen' a block).
Proof.
  revert seen seen' a. induction block as [|b block IH]; intros seen seen' a; [done|].
  cbn [scan]. unfold match_addresses in *. rewrite !fmap_app.
  rewrite (IH (seen ++ [b]) (seen' ++ [b])). by destruct (is_prefix pattern (b :: block)).
Qed.

Lemma chr_bytes (byte : list Z) : Forall is_byte byte -> result_map Py.chr byte = Ok byte.
Proof.
  induction 1 as [|b byte [Hb1 Hb2] _ IH]; [done|].
  cbn [result_map]. unfold Py.chr at 1.
  destruct (0 <=? b) eqn:E1; [|lia]. destruct (b <? 256) eqn:E2; [|lia].
  cbn [andb result_bind]. by rewrite IH.
Qed.

(** The block fetched by the search, seen from the device. *)
Lemma lookup_block (dev : Device) (address size : Z) (k : nat) (b : Z) :
  (read_byte dev <$> seqZ address size) !! k = Some b
  <-> Z.of_nat k < size /\ read_byte dev (address + Z.of_nat k) = b.
Proof.
  rewrite list_lookup_fmap, fmap_Some. setoid_rewrite lookup_seqZ. split.
  - by intros (y & [-> Hlt] & ->).
  - intros [Hlt <-]. eauto.
Qed.

Lemma matches_in_block (dev : Device) (address size : Z) (pattern : list Z) (ctx : nat)
    (seen : list Z) (x : Z) :
  pattern <> [] -> 0 <= size ->
  x ∈ match_addresses (scan ctx pattern seen address (read_byte dev <$> seqZ address size))
  <-> address <= x /\ x + len pattern <= address + size /\ occurs_at dev pattern x.
Proof.
  intros Hne Hsize. rewrite elem_of_scan. unfold occurs_at, len.
  setoid_rewrite is_prefix_lookup. setoid_rewrite lookup_drop.
  setoid_rewrite lookup_block. rewrite length_fmap, length_seqZ.
  destruct (lookup_lt_is_Some_2 pattern (length pattern - 1)) as [blast Hlast].
  { destruct pattern; [done|simpl; lia]. }
  assert (0 < length pattern)%nat by (destruct pattern; [done|simpl; lia]).
  split.
  - intros (i & -> & Hi & Hall). split; [lia|]. split.
    + destruct (Hall _ _ Hlast) as [Hlt _]. lia.
    + intros j b Hj. destruct (Hall _ _ Hj) as [_ <-]. f_equal. lia.
  - intros (Hx1 & Hx2 & Hall). exists (Z.to_nat (x - address)).
    split; [lia|]. split; [lia|]. intros j b Hj.
    pose proof (lookup_lt_Some _ _ _ Hj). split; [lia|].
    rewrite <- (Hall j b Hj). f_equal. lia.
Qed.

(** *** Packing the command block *)

Lemma pack_I_be_ok (v : Z) : u32 v -> Py.pack_I_be v = Ok (Spec.be32 v).
Proof.
  intros [Hv1 Hv2]. unfold Py.pack_I_be, Spec.be32.
  destruct (0 <=? v) eqn:E1; [|lia]. destruct (v <? 2 ^ 32) eqn:E2; [|lia].
  cbn [andb]. by rewrite !Z.shiftr_div_pow2 by lia.
Qed.

Lemma be32_value_be32 (v : Z) : u32 v -> Spec.be32_value (Spec.be32 v) = v.
Proof.
  intros [Hv1 Hv2]. unfold Spec.be32, Spec.be32_value.
  change (2 ^ 8) with 256. change (2 ^ 16) with 65536.
  change (2 ^ 24) with 16777216. change (2 ^ 32) with 4294967296 in Hv2.
  Z.div_mod_to_equations. lia.
Qed.

Section Commands.
Context `{External}.

(** Without a word there is nothing to map: the first [overlay_set] is
    refused and nothing reaches the device. *)
Lemma wrf_no_words (address va : Z) (word : list Z) (cell : string) (dev : Device) :
  extend_words word cell = Ok [] ->
  wrf address word cell va dev = (dev, Err (OverlayStateError va 0)).
Proof.
  intros Hext. unfold wrf. unfold bind at 1. unfold lift. rewrite Hext.
  unfold bind. rewrite overlay_set_rejected; [done|]. intros [_ Hlen]. unfold len in Hlen. simpl in Hlen. lia.
Qed.

(** An LBA or a length that does not fit 32 bits cannot be packed:
    struct.error, before anything is sent. *)
Lemma sc_read_out_of_range (lba length : Z) (dev : Device) :
  ~ (u32 lba /\ u32 length) ->
  sc_read lba length dev = (dev, Err StructError).
Proof.
  intros Hwide. unfold sc_read, bind, lift, Py.pack_BBII_be.
  change (Py.pack_B 168) with (@Ok (list Z) [168]).
  change (Py.pack_B 0) with (@Ok (list Z) [0]). cbn [result_bind].
  unfold Py.pack_I_be, u32 in *.
  destruct (0 <=? lba) eqn:E1, (lba <? 2 ^ 32) eqn:E2; cbn [andb result_bind]; try done.
  destruct (0 <=? length) eqn:E3, (length <? 2 ^ 32) eqn:E4; cbn [andb result_bind];
    try done.
  exfalso. apply Hwide. lia.
Qed.

(** C1. [wrf] and [asmf] patch flash in the mandatory order: the overlay
    is mapped onto the scratch address, every word is written there in
    ascending order, and one single [overlay_set] then moves the window
    onto the target; nothing is issued between the last write and that
    re-map.  Afterwards a read of [4 * len words] bytes at the target, and
    a word read of [len words] words, return exactly the words written. *)
Theorem write_then_overlay (address va : Z) (ws : list Z) (dev : Device) :
  valid_base va -> valid_base address -> ws <> [] -> Forall u32 ws ->
  in_bounds va (4 * len ws) = true -> in_bounds address (4 * len ws) = true ->
  (forall (word : list Z) (cell : string),
      extend_words word cell = Ok ws ->
      patched va address ws dev (wrf address word cell va dev))
  /\ (forall (code : list string) (cell : string) (defs : defines) (data : list Z),
      assemble_string address (Py.join " " code +:+ Py.newline +:+ cell) defs = Ok data ->
      words_from_string data = ws ->
      patched va address ws dev (asmf address code cell defs va dev)).
Proof.
  intros Hva Haddr Hne Hws Hbva Hbaddr. split.
  - intros word cell Hext. unfold wrf.
    unfold bind at 1. unfold lift. rewrite Hext. by apply patch_run.
  - intros code cell defs data Hasm Hwords. unfold asmf.
    unfold bind at 1. unfold lift. rewrite Hasm, Hwords. by apply patch_run.
Qed.

(** C6. [set_overlay(b, n)] followed by [get_overlay()] returns [(b, n)];
    a second [set_overlay] replaces the first mapping entirely, leaving
    the device as if only the second had been issued; and with no overlay
    installed [get_overlay()] returns [(0, 0)]. *)
Theorem ovl_set_get (b n b' n' : Z) (dev : Device) :
  valid_base b -> 0 < n -> valid_base b' -> 0 < n' ->
  let d1 := (ovl (Some b) n dev).1 in
  let d2 := (ovl (Some b') n' d1).1 in
  (ovl (Some b) n dev).2 = Ok None
  /\ (ovl None 1 d1).2 = Ok (Some (b, n))
  /\ (ovl (Some b') n' d1).2 = Ok None
  /\ (ovl None 1 d2).2 = Ok (Some (b', n'))
  /\ same_contents d2 (ovl (Some b') n' dev).1
  /\ (forall (d0 : Device) (wordcount : Z),
        overlay d0 = None -> (ovl None wordcount d0).2 = Ok (Some (0, 0))).
Proof.
  intros Hb Hn Hb' Hn'. unfold ovl, bind, ret. cbn zeta.
  repeat (rewrite overlay_set_run by done; cbn [fst snd]).
  repeat split.
  intros d0 wordcount Hd0. unfold overlay_get. cbn [fst snd]. by rewrite Hd0.
Qed.

Lemma orr_modified (address : Z) (word : list Z) (cell : string) (more : list Z)
    (dev : Device) :
  result_map hexint (Py.split cell) = Ok more ->
  Forall u32 (word ++ more) ->
  in_bounds address (4 * len (word ++ more)) = true ->
  modified or_word address (word ++ more) dev (orr address word cell dev).
Proof.
  intros Hcell Hws Hb. unfold orr, extend_words. rewrite Hcell. cbn [result_bind].
  unfold bind at 1. unfold lift.
  apply (modified_run or_word); [apply u32_or_word|done|done].
Qed.

Lemma bic_modified (address : Z) (word : list Z) (cell : string) (more : list Z)
    (dev : Device) :
  result_map hexint (Py.split cell) = Ok more ->
  Forall u32 (word ++ more) ->
  in_bounds address (4 * len (word ++ more)) = true ->
  modified bic_word address (word ++ more) dev (bic address word cell dev).
Proof.
  intros Hcell Hws Hb. unfold bic, extend_words. rewrite Hcell. cbn [result_bind].
  unfold bind at 1. unfold lift.
  apply (modified_run bic_word); [intros; by apply u32_bic_word|done|done].
Qed.

(** C10. [orr] and [bic] with a list of words (those of the line first,
    then those of the cell) apply the read-modify-write word by word:
    word [i] at [address + 4 * i], in ascending order of [i], and no byte
    outside these words changes. *)
Theorem orr_bic_per_word (address : Z) (word : list Z) (cell : string) (more : list Z)
    (dev : Device) :
  result_map hexint (Py.split cell) = Ok more ->
  Forall u32 (word ++ more) ->
  in_bounds address (4 * len (word ++ more)) = true ->
  modified or_word address (word ++ more) dev (orr address word cell dev)
  /\ modified bic_word address (word ++ more) dev (bic address word cell dev).
Proof.
  intros Hcell Hws Hb. split; [by apply orr_modified|by apply bic_modified].
Qed.

(** C2, as the code has it.  [orr a m] followed by [bic a m] leaves
    [word & ~m] at [a]: the bits of [m] are cleared, whatever they were
    before.  The original word is restored exactly when it had none of
    the bits of [m] set. *)
Theorem orr_then_bic (a m : Z) (dev : Device) :
  in_bounds a 4 = true -> u32 m ->
  let d1 := (orr a [m] EmptyString dev).1 in
  let d2 := (bic a [m] EmptyString d1).1 in
  (orr a [m] EmptyString dev).2 = Ok tt
  /\ (bic a [m] EmptyString d1).2 = Ok tt
  /\ word_at d2 a = Z.land (word_at dev a) (Z.lnot m)
  /\ (word_at d2 a = word_at dev a <-> Z.land (word_at dev a) m = 0).
Proof.
  intros Hb Hm d1 d2.
  assert (Forall u32 ([m] ++ [])) as Hws by (simpl; constructor; [done|constructor]).
  pose proof (orr_modified a [m] EmptyString [] dev eq_refl Hws Hb) as (Ho1 & _ & Ho2 & _).
  pose proof (bic_modified a [m] EmptyString [] d1 eq_refl Hws Hb) as (Hb1 & _ & Hb2 & _).
  specialize (Ho2 0%nat m eq_refl). specialize (Hb2 0%nat m eq_refl).
  change (4 * Z.of_nat 0) with 0 in *. rewrite Z.add_0_r in *.
  fold d1 in Ho2, Hb2. fold d2 in Hb2.
  assert (word_at d2 a = bic_word (word_at dev a) m) as Hd2.
  { by rewrite Hb2, Ho2, bic_or_word. }
  repeat split; try done.
  - rewrite Hd2. by intros ?%bic_word_id.
  - rewrite Hd2. by intros ?%bic_word_id.
Qed.

(** C3. [fill(a, n, pattern)] followed by [read_words(a, n)] returns [n]
    copies of [pattern], and the bulk path (taken when the pattern is one
    repeated byte) and the word-by-word path leave the same contents. *)
Theorem fill_read_back (a pattern n : Z) (dev : Device) :
  0 <= n -> u32 pattern -> in_bounds a (4 * n) = true ->
  (fill a pattern n dev).2 = Ok tt
  /\ (read_words a n (fill a pattern n dev).1).2 = Ok (replicate (Z.to_nat n) pattern)
  /\ (fill_words a pattern (Z.to_nat n) dev).2 = Ok tt
  /\ same_contents (fill a pattern n dev).1 (fill_words a pattern (Z.to_nat n) dev).1
  /\ (forall b : Z, repeated_byte pattern = Some b ->
        (fill_bytes a (4 * n) b dev).2 = Ok tt
        /\ same_contents (fill_bytes a (4 * n) b dev).1
                         (fill_words a pattern (Z.to_nat n) dev).1).
Proof.
  intros Hn Hp Hb.
  assert (forall b : Z, repeated_byte pattern = Some b ->
            (fill_bytes a (4 * n) b dev).2 = Ok tt
            /\ same_contents (fill_bytes a (4 * n) b dev).1
                             (fill_words a pattern (Z.to_nat n) dev).1) as Hfast.
  { intros b [-> Hbyte]%repeated_byte_Some.
    rewrite fill_bytes_run, fill_words_run by done. cbn [fst snd]. split; [done|].
    rewrite encode_replicate by done.
    replace (Z.to_nat (4 * n)) with (4 * Z.to_nat n)%nat by lia.
    apply same_contents_with_ops, same_contents_refl. }
  assert (same_contents (fill a pattern n dev).1 (fill_words a pattern (Z.to_nat n) dev).1
          /\ (fill a pattern n dev).2 = Ok tt) as [Hsame Hok].
  { unfold fill, Mem.fill. destruct (repeated_byte pattern) as [b|] eqn:E.
    - destruct (Hfast b eq_refl) as [? ?]. done.
    - rewrite fill_words_run by done. done. }
  split; [done|]. split; [|split; [by rewrite fill_words_run|by split]].
  unfold read_words. rewrite Hb. cbn [snd]. f_equal.
  destruct Hsame as (Hm & Hw & Ho).
  rewrite fill_words_run in Hm, Hw, Ho by done. cbn [fst memory window overlay with_ops] in *.
  set (ws := replicate (Z.to_nat n) pattern) in *.
  replace n with (Z.of_nat (length ws)) at 1
    by (unfold ws; rewrite length_replicate; lia).
  rewrite <- (read_words_written dev a ws) at 2 by (by apply Forall_replicate).
  apply list_fmap_ext. intros _ i _. unfold word_at, read_byte, overlaid.
  by rewrite Hm, Hw, Ho.
Qed.

(** C9. [find] tests every byte offset of [[address, address + size)] and
    reports exactly the addresses where the pattern lies, in ascending
    order, overlapping occurrences included: AA AA in AA AA AA at 0x1000
    is found at 0x1000 and at 0x1001. *)
Theorem find_every_occurrence (address size : Z) (byte : list Z) (dev : Device) :
  byte <> [] -> Forall is_byte byte -> in_bounds address size = true ->
  (exists rows : list (Z * list Z * list Z * list Z),
      (find address size byte dev).2 = Ok rows
      /\ (forall x : Z,
            x ∈ row_address <$> rows
            <-> address <= x /\ x + len byte <= address + size /\ occurs_at dev byte x)
      /\ StronglySorted Z.lt (row_address <$> rows))
  /\ (exists rows : list (Z * list Z * list Z * list Z),
      (find 0x1000 3 [0xAA; 0xAA] Bench.three_aa).2 = Ok rows
      /\ row_address <$> rows = [0x1000; 0x1001]).
Proof.
  intros Hne Hbytes Hb.
  assert (forall (a sz : Z) (pat : list Z) (d0 : Device),
            Forall is_byte pat -> in_bounds a sz = true ->
            exists rows, (find a sz pat d0).2 = Ok rows
              /\ row_address <$> rows
                 = match_addresses (scan 0 pat [] a (read_byte d0 <$> seqZ a sz))) as Hrun.
  { intros a sz pat d0 Hpat Hin. unfold find, search_block, bind, lift, ret.
    rewrite chr_bytes by done. unfold read_block. rewrite Hin. cbn [fst snd].
    eexists. split; [done|]. rewrite <- list_fmap_compose.
    rewrite <- (scan_addresses_context search_context_length 0 pat _ [] []).
    reflexivity. }
  split.
  - destruct (Hrun address size byte dev Hbytes Hb) as (rows & Hrows & Haddr).
    exists rows. split; [done|]. rewrite Haddr. split.
    + intros x. apply matches_in_block; [done|]. apply in_bounds_true in Hb. lia.
    + apply scan_sorted.
  - destruct (Hrun 0x1000 3 [0xAA; 0xAA] Bench.three_aa) as (rows & Hrows & Haddr).
    { repeat constructor; unfold is_byte; lia. }
    { reflexivity. }
    exists rows. split; [done|]. rewrite Haddr. by vm_compute.
Qed.

(** C5. [sc_read] sends a command block laid out big-endian: the opcode
    0xA8, one reserved byte, the four bytes of the LBA, the four bytes of
    the transfer length; and asks for [length * 2048] bytes of data. *)
Theorem sc_read_cdb (lba length : Z) (dev : Device) :
  u32 lba -> u32 length ->
  let cdb := [0xA8; 0] ++ Spec.be32 lba ++ Spec.be32 length in
  ops (sc_read lba length dev).1 = ops dev ++ [OpScsi cdb (length * 2048)]
  /\ (sc_read lba length dev).2 = scsi_reply cdb (length * 2048)
  /\ Datatypes.length cdb = 10%nat
  /\ Spec.be32_value (Spec.be32 lba) = lba
  /\ Spec.be32_value (Spec.be32 length) = length.
Proof.
  intros Hlba Hlen cdb. unfold sc_read, bind, lift, Py.pack_BBII_be.
  rewrite !pack_I_be_ok by done. cbn [Py.pack_B Z.leb Z.ltb andb result_bind].
  change (Py.pack_B 168) with (@Ok (list Z) [168]).
  change (Py.pack_B 0) with (@Ok (list Z) [0]). cbn [result_bind].
  unfold scsi_in. fold cdb. change ([168] ++ [0] ++ Spec.be32 lba ++ Spec.be32 length) with cdb.
  rewrite !be32_value_be32 by done.
  destruct (scsi_reply cdb (length * 2048)); done.
Qed.

(** C7. The registers persist across evaluations: after a successful [ea]
    the globals [r0] and [r1] hold the pair the evaluation returned, and
    the next [ea] hands that [r0] to the evaluator as its input. *)
Theorem ea_registers_persist (line : string) (defs : defines) (address : Z) (g : Globals)
    (dev' : Device) (a b : Z) :
  evalasm line (or0 (r0 g)) defs address (d g) = (dev', Ok (a, b)) ->
  let g' := (ea line defs address g).1 in
  (ea line defs address g).2 = Ok (a, b)
  /\ g' = mkGlobals dev' (Some a) (Some b)
  /\ or0 (r0 g') = a
  /\ (forall (line2 : string) (defs2 : defines) (address2 : Z),
        d (ea line2 defs2 address2 g').1 = (evalasm line2 a defs2 address2 dev').1)
  /\ (forall (line2 : string) (defs2 : defines) (address2 : Z) (dev2 : Device) (a2 b2 : Z),
        evalasm line2 a defs2 address2 dev' = (dev2, Ok (a2, b2)) ->
        ea line2 defs2 address2 g' = (mkGlobals dev2 (Some a2) (Some b2), Ok (a2, b2))).
Proof.
  intros Hrun g'.
  assert (g' = mkGlobals dev' (Some a) (Some b)) as Hg'.
  { unfold g', ea. by rewrite Hrun. }
  assert (or0 (Some a) = a) as Hor.
  { unfold or0. destruct (a =? 0) eqn:E; [|done]. apply Z.eqb_eq in E. done. }
  split; [unfold ea; by rewrite Hrun|]. split; [done|]. rewrite Hg'. cbn [r0].
  split; [done|]. split.
  - intros line2 defs2 address2. unfold ea. cbn [r0 d]. rewrite Hor.
    destruct (evalasm line2 a defs2 address2 dev') as [dev2 [[a2 b2]|[]]]; done.
  - intros line2 defs2 address2 dev2 a2 b2 Hrun2. unfold ea. cbn [r0 d].
    by rewrite Hor, Hrun2.
Qed.

(** C8. When compilation fails, [hook] and [asmf] stop before anything is
    sent to the device: memory, window, overlay and command log are what
    they were.  The compiler's message reaches the caller unchanged: from
    [asmf] as the code error itself, from [hook] in the usage error that
    [usage_error_from_code] makes of it. *)
Theorem compile_failure_touches_nothing (message : string) (dev : Device) :
  (forall (hook_address : Z) (handler_address : option Z) (quiet : bool)
          (cell : option string) (defs : defines),
      compile_hook (default (pad + 0x100) handler_address)
                   (or_default cell "default_hook(regs)") defs
      = Err (CodeError message) ->
      hook hook_address handler_address quiet cell defs dev
      = (dev, Err (UsageError message)))
  /\ (forall (address : Z) (code : list string) (cell : string) (defs : defines) (va : Z),
      assemble_string address (Py.join " " code +:+ Py.newline +:+ cell) defs
      = Err (CodeError message) ->
      asmf address code cell defs va dev = (dev, Err (CodeError message))).
Proof.
  split.
  - intros hook_address handler_address quiet cell defs Hfail.
    unfold hook, except_code_error, overlay_hook. unfold bind at 1. unfold lift.
    by rewrite Hfail.
  - intros address code cell defs va Hfail.
    unfold asmf. unfold bind at 1. unfold lift. by rewrite Hfail.
Qed.

End Commands.

End ShellFacts.

(** ** Text: the key of a definition *)
Module PyFacts.

Local Abbreviation J s := (Py.join " " (Py.split s)).

(** The test of [str.split] and the list of whitespace code points agree
    on every character. *)
Lemma whitespace_isspace (c : ascii) : Spec.is_whitespace c = Py.isspace c.
Proof. by destruct c as [[] [] [] [] [] [] [] []]. Qed.

Lemma split_eq (s : string) :
  Py.split s =
  match s with
  | EmptyString => []
  | String c s' =>
      if Py.isspace c then Py.split s'
      else
        match s' with
        | EmptyString => [String c EmptyString]
        | String c' _ =>
            if Py.isspace c' then String c EmptyString :: Py.split s'
            else
              match Py.split s' with
              | w :: ws => String c w :: ws
              | [] => [String c EmptyString]
              end
        end
  end.
Proof. by destruct s. Qed.

Lemma split_space (c : ascii) (s : string) :
  Py.isspace c = true -> Py.split (String c s) = Py.split s.
Proof. intros Hc. rewrite split_eq. by rewrite Hc. Qed.

Lemma split_nonempty (c : ascii) (s : string) :
  Py.isspace c = false -> Py.split (String c s) <> [].
Proof.
  intros Hc. rewrite split_eq, Hc. destruct s as [|c' s]; [done|].
  destruct (Py.isspace c'); [done|]. by destruct (Py.split (String c' s)).
Qed.

Lemma join_cons (sep : string) (c : ascii) (w : string) (ws : list string) :
  Py.join sep (String c w :: ws) = String c (Py.join sep (w :: ws)).
Proof. by destruct ws. Qed.

(** The two ways of continuing after something was emitted: past a gap,
    and inside a word. *)
Lemma normalize_continue (s : string) :
  Spec.normalize_from true true s
  = match Py.split s with
    | [] => EmptyString
    | _ :: _ => String " " (J s)
    end
  /\ forall c : ascii, Py.isspace c = false ->
       String c (Spec.normalize_from true false s) = J (String c s).
Proof.
  induction s as [|c' s [IHgap IHword]].
  - split; [done|]. intros c Hc. rewrite split_eq, Hc. done.
  - destruct (Py.isspace c') eqn:E; split.
    + cbn [Spec.normalize_from]. rewrite whitespace_isspace. by rewrite E, split_space.
    + intros c Hc. cbn [Spec.normalize_from]. rewrite whitespace_isspace. rewrite E, IHgap.
      rewrite (split_eq (String c _)), Hc, E, split_space by done.
      by destruct (Py.split s).
    + cbn [Spec.normalize_from]. rewrite whitespace_isspace. rewrite E. cbn [andb]. rewrite (IHword c' E).
      pose proof (split_nonempty c' s E). by destruct (Py.split (String c' s)).
    + intros c Hc. cbn [Spec.normalize_from]. rewrite whitespace_isspace. rewrite E. cbn [andb]. rewrite (IHword c' E).
      rewrite (split_eq (String c _)), Hc, E.
      pose proof (split_nonempty c' s E).
      destruct (Py.split (String c' s)) as [|w ws]; [done|]. by rewrite join_cons.
Qed.

Lemma normalize_unstarted (s : string) (gap : bool) : Spec.normalize_from false gap s = J s.
Proof.
  revert gap. induction s as [|c s IH]; intros gap; [done|].
  cbn [Spec.normalize_from]. rewrite whitespace_isspace. destruct (Py.isspace c) eqn:E.
  - rewrite split_space by done. apply IH.
  - cbn [andb]. by apply normalize_continue.
Qed.

(** [' '.join(s.split())] is the whitespace normalization of [s]. *)
Lemma join_split_normalize (s : string) : J s = Spec.normalize s.
Proof. symmetry. apply normalize_unstarted. Qed.

Lemma split_on_eq (sep : ascii) (s : string) :
  Py.split_on sep s =
  match s with
  | EmptyString => [EmptyString]
  | String c s' =>
      if Ascii.eqb c sep then EmptyString :: Py.split_on sep s'
      else
        match Py.split_on sep s' with
        | w :: ws => String c w :: ws
        | [] => [String c EmptyString]
        end
  end.
Proof. by destruct s. Qed.

(** [s.split('{')[0].split('=')[0]] is the text up to the first [{] or [=]. *)
Lemma head_of_splits (s : string) :
  result_bind (Py.item0 (Py.split_on "{" s)) (fun head => Py.item0 (Py.split_on "=" head))
  = Ok (Spec.up_to_brace_or_equals s).
Proof.
  induction s as [|c s IH]; [done|].
  rewrite split_on_eq. cbn [Spec.up_to_brace_or_equals].
  destruct (Ascii.eqb c "{") eqn:Eb; [done|]. cbn [orb].
  destruct (Py.split_on "{" s) as [|w ws]; [done|].
  cbn [Py.item0 result_bind] in *. rewrite split_on_eq.
  destruct (Ascii.eqb c "=") eqn:Ee; [done|].
  destruct (Py.split_on "=" w) as [|w' ws']; [done|].
  cbn [Py.item0] in *. by simplify_eq.
Qed.

Lemma blank_rstrip (s : string) : Spec.blank (Py.rstrip s) = Spec.blank s.
Proof.
  induction s as [|c s IH]; [done|]. cbn [Py.rstrip Spec.blank]. rewrite ?whitespace_isspace.
  destruct (Py.rstrip s) as [|c' r] eqn:E.
  - rewrite <- IH.
    destruct (Py.isspace c) eqn:Ec; cbn [Spec.blank]; by rewrite ?whitespace_isspace, ?Ec.
  - cbn [Spec.blank] in *. by rewrite IH, whitespace_isspace.
Qed.

Lemma truthy_lstrip (s : string) : Py.truthy (Py.lstrip s) = negb (Spec.blank s).
Proof.
  induction s as [|c s IH]; [done|]. cbn [Py.lstrip Spec.blank]. rewrite ?whitespace_isspace.
  by destruct (Py.isspace c).
Qed.

(** [not line.strip()] holds exactly for a blank line. *)
Lemma truthy_strip (s : string) : Py.truthy (Py.strip s) = negb (Spec.blank s).
Proof. unfold Py.strip. by rewrite truthy_lstrip, blank_rstrip. Qed.

(** The normalized text is tidy and keeps the characters that are not
    whitespace. *)
Lemma spaced_normalize (s : string) :
  Spec.spaced (Spec.normalize_from true false s) = true
  /\ Spec.spaced (Spec.normalize_from true true s) = true.
Proof.
  induction s as [|c s [IHword IHgap]]; [done|]. cbn [Spec.normalize_from].
  destruct (Spec.is_whitespace c) eqn:E; [done|]. cbn [andb Spec.spaced].
  by rewrite E, IHword.
Qed.

Lemma tidy_normalize (s : string) (gap : bool) :
  Spec.tidy (Spec.normalize_from false gap s) = true.
Proof.
  revert gap. induction s as [|c s IH]; intros gap; [done|]. cbn [Spec.normalize_from].
  destruct (Spec.is_whitespace c) eqn:E; [apply IH|]. cbn [andb Spec.tidy].
  rewrite E. apply spaced_normalize.
Qed.

Lemma ink_normalize (s : string) (started gap : bool) :
  Spec.ink (Spec.normalize_from started gap s) = Spec.ink s.
Proof.
  revert started gap. induction s as [|c s IH]; intros started gap; [done|].
  cbn [Spec.normalize_from Spec.ink].
  destruct (Spec.is_whitespace c) eqn:E; [apply IH|].
  destruct (started && gap); cbn [Spec.ink]; rewrite ?E, IH; done.
Qed.

(** A definition is stored under the key the specification describes. *)
Lemma fc_stores (line : string) (cell : option string) (includes : gmap string string)
    (key : string) :
  Spec.key_of line cell = Some key ->
  Shell.fc line cell includes = Ok (<[key := Spec.body_of line cell]> includes, []).
Proof.
  unfold Spec.key_of, Spec.body_of, Shell.fc, Spec.has_cell.
  destruct (Py.truthy (default EmptyString cell)).
  - intros [= <-]. by rewrite join_split_normalize.
  - rewrite truthy_strip. destruct (Spec.blank line); [done|]. intros [= <-]. cbn [negb].
    pose proof (head_of_splits (Py.join " " (Py.split line))) as Hhead.
    rewrite join_split_normalize in *.
    destruct (Py.item0 (Py.split_on "{" (Spec.normalize line))) as [head|]; [|done].
    cbn [result_bind] in *. by rewrite Hhead.
Qed.

(** C4. [fc] stores a definition under the whitespace-normalized text up
    to the first [{] or [=] (line mode) or under the whitespace-normalized
    header line (cell mode); a later definition with the same key replaces
    the earlier one, and definitions with different keys live side by side.
    Whitespace-normalized: [' '.join(line.split())] is the text read left
    to right with every run of whitespace (listed by code point) turned
    into one space and dropped at both ends; it is tidy, and its other
    characters are those of the line, in order. *)
Theorem fc_key_and_replacement (includes : gmap string string) :
  (forall (line : string) (cell : option string) (key : string),
      Spec.key_of line cell = Some key ->
      Shell.fc line cell includes = Ok (<[key := Spec.body_of line cell]> includes, []))
  /\ (forall (line : string),
      Spec.key_of line None
      = (if Spec.blank line then None
         else Some (Spec.up_to_brace_or_equals (Py.join " " (Py.split line)))))
  /\ (forall (line cell : string),
      Py.truthy cell = true ->
      Spec.key_of line (Some cell) = Some (Py.join " " (Py.split line)))
  /\ (forall (line1 line2 : string) (cell1 cell2 : option string) (key : string),
      Spec.key_of line1 cell1 = Some key ->
      Spec.key_of line2 cell2 = Some key ->
      result_bind (Shell.fc line1 cell1 includes) (fun first => Shell.fc line2 cell2 first.1)
      = Ok (<[key := Spec.body_of line2 cell2]> includes, []))
  /\ (forall (line1 line2 : string) (cell1 cell2 : option string) (key1 key2 : string),
      Spec.key_of line1 cell1 = Some key1 ->
      Spec.key_of line2 cell2 = Some key2 ->
      key1 <> key2 ->
      exists table : gmap string string,
        result_bind (Shell.fc line1 cell1 includes) (fun first => Shell.fc line2 cell2 first.1)
        = Ok (table, [])
        /\ table !! key1 = Some (Spec.body_of line1 cell1)
        /\ table !! key2 = Some (Spec.body_of line2 cell2))
  /\ (forall (line : string),
      Py.join " " (Py.split line) = Spec.normalize line
      /\ Spec.tidy (Py.join " " (Py.split line)) = true
      /\ Spec.ink (Py.join " " (Py.split line)) = Spec.ink line).
Proof.
  split; [intros; by apply fc_stores|].
  split. { intros line. unfold Spec.key_of. cbn. by rewrite join_split_normalize. }
  split. { intros line cell Hcell. unfold Spec.key_of, Spec.has_cell. cbn.
           by rewrite Hcell, join_split_normalize. }
  split.
  { intros line1 line2 cell1 cell2 key H1 H2.
    rewrite (fc_stores _ _ _ _ H1). cbn [result_bind fst].
    rewrite (fc_stores _ _ _ _ H2). by rewrite insert_insert_eq. }
  split.
  - intros line1 line2 cell1 cell2 key1 key2 H1 H2 Hne.
    rewrite (fc_stores _ _ _ _ H1). cbn [result_bind fst].
    rewrite (fc_stores _ _ _ _ H2). eexists. split; [done|]. split.
    + by rewrite lookup_insert_ne, lookup_insert_eq.
    + by rewrite lookup_insert_eq.
  - intros line. rewrite join_split_normalize. split; [done|]. split.
    + apply tidy_normalize.
    + apply ink_normalize.
Qed.

End PyFacts.

(** ** The commands at work on the bench *)
Module Runs.
Import Mem Shell Bench ShellFacts.

Ltac in_range := unfold valid_base, overlay_limit, u32, is_byte; lia.
Ltac all_in_range :=
  repeat (apply List.Forall_cons; [in_range|]); apply List.Forall_nil.

(** [wrf c9740 55555555] with two more words in the cell. *)
Lemma write_then_overlay_run :
  patched 0x500000 0xc9740 [0x55555555; 1; 2] fresh
    (@wrf bench 0xc9740 [0x55555555] "1 2" 0x500000 fresh).
Proof.
  apply (proj1 (@write_then_overlay bench 0xc9740 0x500000 [0x55555555; 1; 2] fresh
                  ltac:(in_range) ltac:(in_range) ltac:(discriminate) ltac:(all_in_range)
                  eq_refl eq_refl)).
  reflexivity.
Defined.

(** [ovl 500000 4], then [ovl]. *)
Lemma ovl_set_get_run :
  (ovl None 1 (ovl (Some 0x500000) 4 fresh).1).2 = Ok (Some (0x500000, 4)).
Proof.
  apply (ovl_set_get 0x500000 4 0xc9740 1 fresh
           ltac:(in_range) ltac:(lia) ltac:(in_range) ltac:(lia)).
Defined.

(** [orr 100 1] with two more words in the cell. *)
Lemma orr_bic_per_word_run :
  modified or_word 0x100 ([1] ++ [2; 3]) fresh (@orr bench 0x100 [1] "2 3" fresh).
Proof.
  apply (proj1 (@orr_bic_per_word bench 0x100 [1] "2 3" [2; 3] fresh
                  eq_refl ltac:(all_in_range) eq_refl)).
Defined.

(** Setting then clearing bit 0 of a word that was 1 leaves 0, not 1. *)
Lemma orr_then_bic_not_restored :
  word_at (@bic bench 0x1000 [1] EmptyString (@orr bench 0x1000 [1] EmptyString word_one).1).1 0x1000
  <> word_at word_one 0x1000.
Proof. vm_compute. discriminate. Qed.

Lemma orr_then_bic_run :
  word_at (@bic bench 0x1000 [1] EmptyString (@orr bench 0x1000 [1] EmptyString word_one).1).1 0x1000
  = Z.land (word_at word_one 0x1000) (Z.lnot 1).
Proof.
  apply (@orr_then_bic bench 0x1000 1 word_one eq_refl ltac:(in_range)).
Defined.

(** [fill 100 41414141 2]: the bulk path. *)
Lemma fill_read_back_run :
  (read_words 0x100 2 (@fill 0x100 0x41414141 2 fresh).1).2
  = Ok (replicate (Z.to_nat 2) 0x41414141).
Proof.
  apply (@fill_read_back 0x100 0x41414141 2 fresh ltac:(lia) ltac:(in_range) eq_refl).
Defined.

(** [find 1000 3 aa aa] *)
Lemma find_every_occurrence_run :
  exists rows : list (Z * list Z * list Z * list Z),
    (@find bench 0x1000 3 [0xAA; 0xAA] three_aa).2 = Ok rows
    /\ row_address <$> rows = [0x1000; 0x1001].
Proof.
  apply (proj2 (@find_every_occurrence bench 0x1000 3 [0xAA; 0xAA] three_aa
                  ltac:(discriminate) ltac:(all_in_range) eq_refl)).
Defined.

(** [sc_read 10 2] *)
Lemma sc_read_cdb_run :
  ops (@sc_read bench 0x10 2 fresh).1
  = ops fresh ++ [OpScsi ([0xA8; 0] ++ Spec.be32 0x10 ++ Spec.be32 2) (2 * 2048)].
Proof.
  apply (@sc_read_cdb bench 0x10 2 fresh ltac:(in_range) ltac:(in_range)).
Defined.

(** [ea next], twice in a row. *)
Lemma ea_registers_persist_run :
  (@ea bench "next" tt 0 (mkGlobals fresh None None)).1 = mkGlobals fresh (Some 1) (Some 0).
Proof.
  apply (@ea_registers_persist bench "next" tt 0 (mkGlobals fresh None None) fresh 1 0 eq_refl).
Defined.

(** A hook body and an instruction that do not compile. *)
Lemma compile_failure_run :
  @hook bench 0x8564c None false (Some "x") tt fresh
  = (fresh, Err (UsageError "cannot compile"))
  /\ @asmf bench 0x8564c ["bad"] EmptyString tt default_va fresh
     = (fresh, Err (CodeError "unknown instruction")).
Proof.
  split.
  - apply (proj1 (@compile_failure_touches_nothing bench "cannot compile" fresh)).
    reflexivity.
  - apply (proj2 (@compile_failure_touches_nothing bench "unknown instruction" fresh)).
    reflexivity.
Defined.

(** A definition typed with a tab, runs of spaces and a space at the end:
    the key is the normalized text up to the equals sign. *)
Lemma fc_key_run :
  fc tabbed_line None ∅ = Ok (<["int x " := tabbed_line +:+ ";"]> ∅, []).
Proof.
  apply (proj1 (PyFacts.fc_key_and_replacement ∅) tabbed_line None "int x ").
  reflexivity.
Defined.

End Runs.

(** ** More of the shell: errors, edges and how the commands compose *)
Module Coverage.
Import Mem Shell Scsi Words MemFacts ShellFacts.

Lemma split_blank (s : string) : Spec.blank s = true -> Py.split s = [].
Proof.
  induction s as [|c s IH]; [done|]. cbn [Spec.blank].
  rewrite PyFacts.whitespace_isspace.
  intros [Hc Hs]%andb_true_iff. rewrite PyFacts.split_space by done. auto.
Qed.

Lemma chr_refuses (byte : list Z) :
  Exists not_byte byte ->
  exists e : error,
    result_map Py.chr byte = Err e
    /\ (exists b : Z, b ∈ byte /\ not_byte b /\ Py.chr b = Err e)
    /\ (e = ValueError \/ e = OverflowError)
    /\ (Forall (fun b => Py.fits_long b = true) byte -> e = ValueError).
Proof.
  induction byte as [|b byte IH]; intros Hbad; [by apply Exists_nil in Hbad|].
  cbn [result_map]. destruct (Py.chr b) as [v|e] eqn:Hchr; cbn [result_bind].
  - assert (is_byte b) as Hb.
    { unfold Py.chr in Hchr. unfold is_byte.
      destruct ((0 <=? b) && (b <? 256)) eqn:E; [apply andb_true_iff in E; lia|].
      by destruct (Py.fits_long b). }
    apply Exists_cons in Hbad as [Hno|Hrest]; [done|].
    destruct (IH Hrest) as (e & -> & (b' & Hin & Hb' & He) & Hkind & Hlong).
    exists e. split; [done|]. split; [exists b'; by rewrite elem_of_cons; auto|].
    split; [done|]. intros [_ Hall]%Forall_cons. auto.
  - exists e. split; [done|].
    assert (not_byte b) as Hb.
    { unfold not_byte, is_byte. intros [Hb1 Hb2]. unfold Py.chr in Hchr.
      destruct (0 <=? b) eqn:E1; [|lia]. by destruct (b <? 256) eqn:E2; [|lia]. }
    split; [exists b; by rewrite elem_of_cons; auto|].
    unfold Py.chr in Hchr. destruct ((0 <=? b) && (b <? 256)); [done|].
    destruct (Py.fits_long b) eqn:Hfit; simplify_eq.
    + split; [by left|done].
    + split; [by right|]. intros [Hlong _]%Forall_cons. congruence.
Qed.

Lemma be32_bytes (v : Z) : Forall is_byte (Spec.be32 v).
Proof.
  unfold Spec.be32, is_byte.
  repeat (apply List.Forall_cons; [apply Z.mod_pos_bound; lia|]). apply List.Forall_nil.
Qed.

Section Commands.
Context `{External}.

Lemma extend_no_cell (word : list Z) : extend_words word EmptyString = Ok word.
Proof. unfold extend_words. cbn. by rewrite app_nil_r. Qed.

Lemma extend_blank_cell (word : list Z) (cell : string) :
  Spec.blank cell = true -> extend_words word cell = Ok word.
Proof.
  intros Hblank. unfold extend_words. rewrite split_blank by done. cbn.
  by rewrite app_nil_r.
Qed.

(** X1. [asmf] is [wrf] on the words of the assembled code: once the
    assembler has answered, the command does what [wrf] does with these
    words and no cell. *)
Theorem asmf_is_assemble_then_wrf (address va : Z) (code : list string) (cell : string)
    (defs : defines) (data : list Z) (dev : Device) :
  assemble_string address (Py.join " " code +:+ Py.newline +:+ cell) defs = Ok data ->
  asmf address code cell defs va dev
  = wrf address (words_from_string data) EmptyString va dev.
Proof.
  intros Hasm. unfold asmf, wrf. rewrite extend_no_cell.
  unfold bind at 1 4. unfold lift. by rewrite Hasm.
Qed.

(** X2. [wrf] is the three commands it stands for, in a row: [ovl] onto
    the scratch address, [wr] of the words there, [ovl] onto the target;
    it stops where the first of them stops. *)
Theorem wrf_is_ovl_wr_ovl (address va : Z) (word : list Z) (cell : string) (ws : list Z)
    (dev : Device) :
  extend_words word cell = Ok ws ->
  wrf address word cell va dev
  = (let* _ := ovl (Some va) (len ws) in
     let* _ := wr va ws EmptyString in
     let* _ := ovl (Some address) (len ws) in
     ret tt) dev.
Proof.
  intros Hext. unfold wrf, wr. rewrite Hext, extend_no_cell.
  unfold ovl, bind, lift, ret.
  destruct (overlay_set va (len ws) dev) as [d1 [[]|e1]]; [|done].
  destruct (poke_words va ws d1) as [d2 [[]|e2]]; [|done].
  by destruct (overlay_set address (len ws) d2) as [d3 [[]|e3]].
Qed.

(** X3. A word of the cell that [hexint] refuses stops [wrf], [wr], [orr]
    and [bic] before anything is sent to the device: the words of the
    cell are all read first. *)
Theorem bad_cell_word_sends_nothing (address va : Z) (word : list Z) (cell : string)
    (e : error) (dev : Device) :
  result_map hexint (Py.split cell) = Err e ->
  wrf address word cell va dev = (dev, Err e)
  /\ wr address word cell dev = (dev, Err e)
  /\ orr address word cell dev = (dev, Err e)
  /\ bic address word cell dev = (dev, Err e).
Proof.
  intros Hbad.
  assert (extend_words word cell = Err e) as Hext.
  { unfold extend_words. by rewrite Hbad. }
  unfold wrf, wr, orr, bic. rewrite Hext. by unfold bind, lift.
Qed.

(** X4. A cell that holds nothing but whitespace adds no word: the cell
    form of [wrf], [wr], [orr] and [bic] then does what the line form does. *)
Theorem blank_cell_is_line_mode (address va : Z) (word : list Z) (cell : string)
    (dev : Device) :
  Spec.blank cell = true ->
  wrf address word cell va dev = wrf address word EmptyString va dev
  /\ wr address word cell dev = wr address word EmptyString dev
  /\ orr address word cell dev = orr address word EmptyString dev
  /\ bic address word cell dev = bic address word EmptyString dev.
Proof.
  intros Hblank. unfold wrf, wr, orr, bic.
  by rewrite !extend_no_cell, !extend_blank_cell.
Qed.

(** X5. [orr] and [bic] without a word do nothing at all, at any address:
    the loop has no turn, so not even an address out of range is noticed. *)
Theorem orr_bic_without_words (address : Z) (cell : string) (dev : Device) :
  Spec.blank cell = true ->
  orr address [] cell dev = (dev, Ok tt) /\ bic address [] cell dev = (dev, Ok tt).
Proof.
  intros Hblank. unfold orr, bic. by rewrite !extend_blank_cell.
Qed.

(** X6. A byte outside 0..255 in the pattern of [find] or in the command
    block of [sc] is refused by [chr], and nothing is sent.  The error is
    the one [chr] raises for such a byte of the list: ValueError, or
    OverflowError for a number that does not fit a C long; ValueError
    when all the numbers fit. *)
Theorem bad_byte_sends_nothing (address size len : Z) (byte : list Z) (dev : Device) :
  Exists not_byte byte ->
  exists e : error,
    find address size byte dev = (dev, Err e)
    /\ sc len byte dev = (dev, Err e)
    /\ (exists b : Z, b ∈ byte /\ not_byte b /\ Py.chr b = Err e)
    /\ (e = ValueError \/ e = OverflowError)
    /\ (Forall (fun b => Py.fits_long b = true) byte -> e = ValueError).
Proof.
  intros Hbad. destruct (chr_refuses byte Hbad) as (e & Hchr & Hwhich & Hkind & Hlong).
  exists e. unfold find, sc. unfold bind at 1 3. unfold lift. by rewrite Hchr.
Qed.

(** X7. [sc_read] is [sc] with the packed command block: for an LBA and a
    length of 32 bits it sends what [sc] sends for the ten bytes A8, 00,
    LBA, length, asking for [length * 2048] bytes. *)
Theorem sc_read_is_sc (lba length : Z) (dev : Device) :
  u32 lba -> u32 length ->
  sc_read lba length dev
  = sc (length * 2048) ([0xA8; 0] ++ Spec.be32 lba ++ Spec.be32 length) dev.
Proof.
  intros Hlba Hlen. unfold sc_read, sc, Py.pack_BBII_be.
  rewrite !pack_I_be_ok by done.
  change (Py.pack_B 168) with (@Ok (list Z) [168]).
  change (Py.pack_B 0) with (@Ok (list Z) [0]). cbn [result_bind].
  rewrite chr_bytes; [done|].
  repeat (apply List.Forall_cons; [unfold is_byte; lia|]).
  apply Forall_app. split; apply be32_bytes.
Qed.

(** X8. An LBA or a length that does not fit 32 bits cannot be packed:
    [sc_read] raises struct.error and sends nothing. *)
Theorem sc_read_needs_32_bits (lba length : Z) (dev : Device) :
  ~ (u32 lba /\ u32 length) ->
  sc_read lba length dev = (dev, Err StructError)
  /\ ops (sc_read lba length dev).1 = ops dev.
Proof.
  intros Hwide. by rewrite sc_read_out_of_range.
Qed.

Lemma bind_lift_ok {A B} (v : A) (k : A -> M B) : (let* x := lift (Ok v) in k x) = k v.
Proof. reflexivity. Qed.

Lemma for_enumerate_shift {A} (body : Z -> A -> M unit) (a : Z) (l : list A) (i : Z)
    (dev : Device) :
  for_enumerate (fun j x => body (a + j * 4) x) (i + 1) l dev
  = for_enumerate (fun j x => body (a + 4 + j * 4) x) i l dev.
Proof.
  revert i dev. induction l as [|x l IH]; intros i dev; [done|].
  cbn [for_enumerate]. unfold bind.
  replace (a + (i + 1) * 4) with (a + 4 + i * 4) by lia.
  destruct (body (a + 4 + i * 4) x dev) as [dev' [[]|e]]; [apply IH|done].
Qed.

(** X9. [orr] and [bic] with several words are one [orr] or [bic] per
    word at successive word addresses: the first word at [address], the
    others as the same command at [address + 4]. *)
Theorem orr_bic_word_by_word (address w : Z) (ws : list Z) (dev : Device) :
  orr address (w :: ws) EmptyString dev
  = (let* _ := orr address [w] EmptyString in orr (address + 4) ws EmptyString) dev
  /\ bic address (w :: ws) EmptyString dev
     = (let* _ := bic address [w] EmptyString in bic (address + 4) ws EmptyString) dev.
Proof.
  unfold orr, bic. rewrite !extend_no_cell, !bind_lift_ok.
  cbn [for_enumerate]. change (0 + 1) with 1.
  split; unfold bind, ret.
  - destruct (poke_orr (address + 0 * 4) w dev) as [dev' [[]|e]]; [|done].
    apply (for_enumerate_shift poke_orr address ws 0).
  - destruct (poke_bic (address + 0 * 4) w dev) as [dev' [[]|e]]; [|done].
    apply (for_enumerate_shift poke_bic address ws 0).
Qed.

(** X10. When the evaluation fails, [ea] leaves [r0] and [r1] as they
    were, whatever the failure; the device is as the evaluator left it. *)
Theorem ea_failure_keeps_registers (line : string) (defs : defines) (address : Z)
    (g : Globals) (dev' : Device) (e : error) :
  evalasm line (or0 (r0 g)) defs address (d g) = (dev', Err e) ->
  ea line defs address g = (mkGlobals dev' (r0 g) (r1 g), Err (usage_error_from_code e)).
Proof.
  intros Hrun. unfold ea. rewrite Hrun. by destruct e.
Qed.

(** X11. [ea] sets the two registers together: if [r0] and [r1] are both
    unset or both set before a call, they are so after it, whether the
    evaluation succeeds or not. *)
Theorem ea_keeps_registers_paired (line : string) (defs : defines) (address : Z)
    (g : Globals) :
  paired g -> paired (ea line defs address g).1.
Proof.
  intros Hg. unfold ea, paired in *.
  destruct (evalasm line (or0 (r0 g)) defs address (d g)) as [dev' [[a b]|e]].
  - cbn. split; eauto.
  - by destruct e.
Qed.

Lemma plain_hex_words (argument : string) (l : list string) (vs : list Z) :
  reads_plain_hex -> result_map Bench.plain_hexint l = Ok vs ->
  result_map (convert argument) l = Ok vs.
Proof.
  intros Hhex. revert vs. induction l as [|s l IH]; intros vs; [done|].
  cbn [result_map]. destruct (Bench.plain_hexint s) as [v|] eqn:Es; [|done].
  unfold convert at 1. rewrite (Hhex s v Es). cbn [result_bind].
  destruct (result_map Bench.plain_hexint l) as [vs'|]; [|done].
  by rewrite (IH vs' eq_refl).
Qed.

Lemma sc_args_plain (line : string) (len : Z) (cdb : list Z) :
  reads_plain_hex -> result_map Bench.plain_hexint (Py.split line) = Ok (len :: cdb) ->
  sc_args line = Ok (len, cdb).
Proof.
  intros Hhex Hplain. unfold sc_args.
  destruct (Py.split line) as [|token tokens]; [done|].
  cbn [result_map] in Hplain.
  destruct (Bench.plain_hexint token) as [v|] eqn:Etoken; [|done].
  cbn [result_bind] in Hplain.
  destruct (result_map Bench.plain_hexint tokens) as [vs|] eqn:Etokens; [|done].
  cbn [result_bind] in Hplain. simplify_eq.
  unfold convert at 1. rewrite (Hhex _ _ Etoken). cbn [result_bind].
  by rewrite (plain_hex_words "cdb" _ _ Hhex Etokens).
Qed.

(** X12. [eject] sends one command block, 1B 00 00 00 02, and asks for no
    data; [sc_sense] sends 03 00 00 00 20 and asks for 0x20 bytes.  Each
    is a single SCSI command: memory, window and overlay are untouched. *)
Theorem eject_and_sense_commands (dev : Device) :
  reads_plain_hex ->
  (ops (eject dev).1 = ops dev ++ [OpScsi [0x1b; 0; 0; 0; 2] 0]
   /\ (eject dev).2 = scsi_reply [0x1b; 0; 0; 0; 2] 0
   /\ same_contents (eject dev).1 dev)
  /\ (ops (sc_sense dev).1 = ops dev ++ [OpScsi [3; 0; 0; 0; 0x20] 0x20]
      /\ (sc_sense dev).2 = scsi_reply [3; 0; 0; 0; 0x20] 0x20
      /\ same_contents (sc_sense dev).1 dev).
Proof.
  intros Hhex.
  assert (forall (line : string) (len : Z) (cdb : list Z),
            result_map Bench.plain_hexint (Py.split line) = Ok (len :: cdb) ->
            Forall is_byte cdb ->
            ops (sc_line line dev).1 = ops dev ++ [OpScsi cdb len]
            /\ (sc_line line dev).2 = scsi_reply cdb len
            /\ same_contents (sc_line line dev).1 dev) as Hline.
  { intros line len cdb Hplain Hbytes. unfold sc_line.
    rewrite (sc_args_plain _ _ _ Hhex Hplain). unfold sc, bind, lift. cbn [fst snd].
    rewrite chr_bytes by done. unfold scsi_in.
    by destruct (scsi_reply cdb len). }
  split; apply Hline; try reflexivity;
    repeat (apply List.Forall_cons; [unfold is_byte; lia|]); apply List.Forall_nil.
Qed.

End Commands.

(** *** The table of definitions *)

Lemma length_append (s t : string) :
  String.length (s +:+ t) = (String.length s + String.length t)%nat.
Proof. induction s as [|c s IH]; [done|]. simpl. f_equal. exact IH. Qed.

Lemma starts_append (p t : string) : Words.starts p (p +:+ t) = true.
Proof.
  induction p as [|c p IH]; [done|]. simpl. rewrite Ascii.eqb_refl. exact IH.
Qed.

Lemma length_repeat_char (c : ascii) (n : nat) : String.length (Py.repeat_char c n) = n.
Proof. induction n as [|n IH]; [done|]. simpl. f_equal. exact IH. Qed.

Lemma blank_split (s : string) : Spec.blank s = true <-> Py.split s = [].
Proof.
  split; [apply split_blank|]. induction s as [|c s IH]; [done|].
  cbn [Spec.blank]. rewrite PyFacts.whitespace_isspace. destruct (Py.isspace c) eqn:E.
  - rewrite PyFacts.split_space by done. intros Hs. by rewrite IH.
  - intros Hs. by apply PyFacts.split_nonempty in Hs.
Qed.

Lemma listing_length (l : list (string * string)) :
  length (concat ((fun kv => [fc_banner kv.1; kv.2; EmptyString]) <$> l)) = (3 * length l)%nat.
Proof.
  induction l as [|kv l IH]; [done|].
  rewrite fmap_cons. cbn [concat]. rewrite length_app, IH. cbn [length]. lia.
Qed.

Lemma fc_lists (line : string) (cell : option string) (includes : gmap string string) :
  Spec.blank line = true -> Spec.has_cell cell = false ->
  fc line cell includes
  = Ok (includes,
        concat ((fun kv => [fc_banner kv.1; kv.2; EmptyString]) <$> map_to_list includes)).
Proof.
  intros Hblank Hcell. unfold fc. unfold Spec.has_cell in Hcell.
  by rewrite Hcell, PyFacts.truthy_strip, Hblank.
Qed.

(** X13. [fc] with a blank line and no cell only lists: the table of
    definitions is unchanged, and what is printed is, for each definition
    of the table in turn, its banner, its text and an empty line, and
    nothing else. *)
Theorem fc_listing_changes_nothing (line : string) (cell : option string)
    (includes : gmap string string) :
  Spec.blank line = true -> Spec.has_cell cell = false ->
  exists out : list string,
    fc line cell includes = Ok (includes, out)
    /\ out = concat ((fun kv => [fc_banner kv.1; kv.2; EmptyString])
                       <$> map_to_list includes)
    /\ length out = (3 * size includes)%nat
    /\ (forall (key text : string), includes !! key = Some text ->
          exists before after : list string,
            out = before ++ [fc_banner key; text; EmptyString] ++ after).
Proof.
  intros Hblank Hcell. rewrite fc_lists by done.
  eexists. split; [done|]. split; [done|]. split.
  - by rewrite listing_length, length_map_to_list.
  - intros key text Hkey. apply elem_of_map_to_list in Hkey.
    apply list_elem_of_split in Hkey as (l1 & l2 & ->).
    rewrite fmap_app, fmap_cons, concat_app. cbn [concat fst snd]. eauto.
Qed.

(** X14. The banner of a listed definition never cuts the key: it is
    82 characters long for a key of up to 70 characters, and 12 more than
    the key beyond that. *)
Theorem fc_banner_length (key : string) :
  String.length (fc_banner key) = (12 + Nat.max 70 (String.length key))%nat
  /\ Words.starts ("========== " +:+ key) (fc_banner key) = true.
Proof.
  unfold fc_banner. cbn [Py.join]. split.
  - rewrite !length_append, !length_repeat_char. cbn [String.length]. lia.
  - set (rest := Py.repeat_char _ (Z.to_nat _)).
    change (Words.starts ("========== " +:+ key)
              (("========== " +:+ key) +:+ (" " +:+ rest)) = true).
    apply starts_append.
Qed.

Lemma up_to_has_no_stop (s : string) :
  Words.contains "{" (Spec.up_to_brace_or_equals s) = false
  /\ Words.contains "=" (Spec.up_to_brace_or_equals s) = false
  /\ Words.starts (Spec.up_to_brace_or_equals s) s = true.
Proof.
  induction s as [|c s (IH1 & IH2 & IH3)]; [done|]. cbn [Spec.up_to_brace_or_equals].
  destruct (Ascii.eqb c "{") eqn:E1; [done|]. destruct (Ascii.eqb c "=") eqn:E2; [done|].
  cbn. by rewrite E1, E2, IH1, IH2, IH3, Ascii.eqb_refl.
Qed.

(** X15. A key that [fc] adds or changes in line mode holds neither [{]
    nor [=], and is the beginning of the whitespace-normalized line. *)
Theorem fc_line_key_shape (line : string) (includes table : gmap string string)
    (out : list string) (key : string) :
  fc line None includes = Ok (table, out) ->
  table !! key <> includes !! key ->
  Words.contains "{" key = false
  /\ Words.contains "=" key = false
  /\ Words.starts key (Py.join " " (Py.split line)) = true.
Proof.
  intros Hfc Hnew. destruct (Spec.key_of line None) as [k|] eqn:Hk.
  - rewrite (PyFacts.fc_stores _ _ _ _ Hk) in Hfc. simplify_eq.
    destruct (decide (k = key)) as [->|Hne]; [|by rewrite lookup_insert_ne in Hnew].
    unfold Spec.key_of in Hk. cbn in Hk. destruct (Spec.blank line); [done|].
    simplify_eq. rewrite PyFacts.join_split_normalize. apply up_to_has_no_stop.
  - unfold Spec.key_of in Hk. cbn in Hk. destruct (Spec.blank line) eqn:Hblank; [|done].
    rewrite fc_lists in Hfc by done. by simplify_eq.
Qed.

(** *** Whitespace normalization, once and again *)

Lemma split_word_alone (w : string) : is_word w = true -> Py.split w = [w].
Proof.
  unfold is_word. induction w as [|c w IH]; [done|]. cbn [Py.truthy has_space andb].
  intros [Hc Hw]%negb_true_iff%orb_false_iff. rewrite PyFacts.split_eq, Hc.
  destruct w as [|c' w]; [done|]. cbn [has_space] in Hw.
  apply orb_false_iff in Hw as [Hc' Hw']. rewrite Hc', IH; [done|].
  cbn [Py.truthy has_space andb]. by rewrite Hc', Hw'.
Qed.

Lemma split_word_space (w t : string) :
  is_word w = true -> Py.split (w +:+ String " " t) = w :: Py.split t.
Proof.
  unfold is_word. induction w as [|c w IH]; [done|]. cbn [Py.truthy has_space andb].
  intros [Hc Hw]%negb_true_iff%orb_false_iff.
  change (String c w +:+ String " " t) with (String c (w +:+ String " " t)).
  rewrite PyFacts.split_eq, Hc. destruct w as [|c' w].
  - change (EmptyString +:+ String " " t) with (String " " t).
    by rewrite (PyFacts.split_space " " t).
  - change (String c' w +:+ String " " t) with (String c' (w +:+ String " " t)).
    cbn [has_space] in Hw. apply orb_false_iff in Hw as [Hc' Hw']. rewrite Hc'.
    change (String c' (w +:+ String " " t)) with (String c' w +:+ String " " t).
    rewrite IH; [done|]. cbn [Py.truthy has_space andb]. by rewrite Hc', Hw'.
Qed.

Lemma split_join_words (ws : list string) :
  Forall (fun w => is_word w = true) ws -> Py.split (Py.join " " ws) = ws.
Proof.
  induction 1 as [|w ws Hw Hws IH]; [done|]. destruct ws as [|w' ws].
  - by apply split_word_alone.
  - change (Py.join " " (w :: w' :: ws)) with (w +:+ String " " (Py.join " " (w' :: ws))).
    by rewrite split_word_space, IH.
Qed.

Lemma split_words (s : string) : Forall (fun w => is_word w = true) (Py.split s).
Proof.
  induction s as [|c s IH]; [constructor|]. rewrite PyFacts.split_eq.
  destruct (Py.isspace c) eqn:Hc; [done|].
  assert (is_word (String c EmptyString) = true) as Hone.
  { unfold is_word. cbn. by rewrite Hc. }
  destruct s as [|c' s]; [by repeat constructor|].
  destruct (Py.isspace c') eqn:Hc'; [by constructor|].
  destruct (Py.split (String c' s)) as [|w ws]; [by repeat constructor|].
  apply Forall_cons in IH as [Hw Hws]. constructor; [|done].
  unfold is_word in *. cbn [Py.truthy has_space andb]. rewrite Hc. cbn [orb].
  by apply andb_true_iff in Hw as [_ ->].
Qed.

Lemma split_normalized (s : string) : Py.split (Py.join " " (Py.split s)) = Py.split s.
Proof. apply split_join_words, split_words. Qed.

Lemma key_of_normalized (line : string) (cell : option string) :
  Spec.key_of (Py.join " " (Py.split line)) cell = Spec.key_of line cell.
Proof.
  unfold Spec.key_of. rewrite <- !PyFacts.join_split_normalize, split_normalized.
  destruct (Spec.has_cell cell); [done|].
  assert (Spec.blank (Py.join " " (Py.split line)) = Spec.blank line) as ->; [|done].
  apply eq_true_iff_eq. by rewrite !blank_split, split_normalized.
Qed.

(** X16. Whitespace normalization is stable: splitting the normalized
    line gives the words of the line again, so a definition typed with
    any spacing and the same definition typed normalized are stored under
    the same key. *)
Theorem normalized_line_same_key (line : string) (cell : option string)
    (includes : gmap string string) (key : string) :
  Spec.key_of line cell = Some key ->
  Py.split (Py.join " " (Py.split line)) = Py.split line
  /\ exists body body' : string,
       fc line cell includes = Ok (<[key := body]> includes, [])
       /\ fc (Py.join " " (Py.split line)) cell includes = Ok (<[key := body']> includes, []).
Proof.
  intros Hkey. split; [apply split_normalized|].
  exists (Spec.body_of line cell), (Spec.body_of (Py.join " " (Py.split line)) cell).
  split; apply PyFacts.fc_stores; [done|]. by rewrite key_of_normalized.
Qed.

(** X17. In cell mode a blank header line is not refused: the definition
    is stored under the empty key, where the next such definition
    replaces it. *)
Theorem fc_blank_header (line cell : string) (includes : gmap string string) :
  Spec.blank line = true -> Py.truthy cell = true ->
  fc line (Some cell) includes
  = Ok (<[EmptyString := Spec.body_of line (Some cell)]> includes, []).
Proof.
  intros Hblank Hcell. apply PyFacts.fc_stores.
  unfold Spec.key_of, Spec.has_cell.
  change (default EmptyString (Some cell)) with cell. rewrite Hcell.
  by rewrite <- PyFacts.join_split_normalize, split_blank.
Qed.

(** *** What the patch commands write, and where *)

Lemma overlaid_in (dev : Device) (b n x : Z) :
  overlay dev = Some (b, n) -> b <= x < b + 4 * n -> overlaid dev x = Some (x - b).
Proof.
  intros Ho Hx. unfold overlaid. rewrite Ho.
  destruct (b <=? x) eqn:E1; [|lia]. by destruct (x <? b + 4 * n) eqn:E2; [|lia].
Qed.

Lemma write_bytes_window (data : list Z) (dev : Device) (b n a : Z) :
  overlay dev = Some (b, n) -> b <= a -> a + Z.of_nat (length data) <= b + 4 * n ->
  memory (write_bytes dev a data) = memory dev.
Proof.
  revert dev a. induction data as [|v data IH]; intros dev a Ho Ha Hend; [done|].
  cbn [write_bytes]. cbn [length] in Hend. rewrite Nat2Z.inj_succ in Hend.
  rewrite IH; [| by rewrite overlay_write_byte | lia | lia].
  unfold write_byte. by rewrite (overlaid_in dev b n a) by (done || lia).
Qed.

Lemma poke_words_window (ws : list Z) (dev : Device) (b n a : Z) :
  overlay dev = Some (b, n) -> b <= a -> a + 4 * Z.of_nat (length ws) <= b + 4 * n ->
  memory (poke_words a ws dev).1 = memory dev.
Proof.
  revert dev a. induction ws as [|w ws IH]; intros dev a Ho Ha Hend; [done|].
  cbn [poke_words]. cbn [length] in Hend. rewrite Nat2Z.inj_succ in Hend.
  unfold bind, poke. destruct (in_bounds a 4); [|done].
  rewrite IH; [| | lia | lia].
  - cbn [memory issue]. apply (write_bytes_window _ _ b n); [done|lia|simpl; lia].
  - cbn [overlay issue]. by rewrite overlay_write_bytes.
Qed.

Lemma patch_keeps_memory (va address : Z) (ws : list Z) (dev : Device) :
  memory ((let* _ := overlay_set va (len ws) in
           let* _ := poke_words va ws in
           overlay_set address (len ws)) dev).1 = memory dev.
Proof.
  unfold bind. unfold overlay_set at 1.
  destruct ((0 <=? va) && (va <? overlay_limit) && (0 <? len ws)); [|done].
  set (d1 := issue (with_overlay dev (Some (va, len ws))) _).
  pose proof (poke_words_window ws d1 va (len ws) va eq_refl ltac:(lia)
                ltac:(unfold len; lia)) as Hwin.
  destruct (poke_words va ws d1) as [d2 [[]|e]]; cbn [fst] in *; [|done].
  unfold overlay_set.
  by destruct ((0 <=? address) && (address <? overlay_limit) && (0 <? len ws)).
Qed.

Section Patches.
Context `{External}.

(** X18. [wrf] and [asmf] write into the RAM overlay region only: whatever
    the arguments, and whether the command completes or stops on an
    error, the memory under the overlay is what it was before. *)
Theorem patch_writes_window_only (address va : Z) (word : list Z) (cell : string)
    (code : list string) (defs : defines) (dev : Device) :
  memory (wrf address word cell va dev).1 = memory dev
  /\ memory (asmf address code cell defs va dev).1 = memory dev.
Proof.
  split.
  - unfold wrf. unfold bind at 1. unfold lift.
    destruct (extend_words word cell) as [ws|e]; [apply patch_keeps_memory|done].
  - unfold asmf. unfold bind at 1. unfold lift.
    destruct (assemble_string _ _ _) as [data|e]; [apply patch_keeps_memory|done].
Qed.

(** X19. [wr] writes the words where they are read back: after
    [wr address words], a word read at [address] returns the words, a
    byte read their bytes in little-endian order, one poke was issued per
    word in ascending order, and every byte outside the range is as before. *)
Theorem wr_then_read (address : Z) (word : list Z) (cell : string) (ws : list Z)
    (dev : Device) :
  extend_words word cell = Ok ws -> Forall u32 ws ->
  in_bounds address (4 * len ws) = true ->
  let after := (wr address word cell dev).1 in
  (wr address word cell dev).2 = Ok tt
  /\ ops after = ops dev ++ poke_ops address ws
  /\ (read_words address (len ws) after).2 = Ok ws
  /\ (read_block address (4 * len ws) after).2 = Ok (encode ws)
  /\ (forall x : Z, x < address \/ address + 4 * len ws <= x ->
        read_byte after x = read_byte dev x).
Proof.
  intros Hext Hws Hb after. unfold after, wr. rewrite Hext, bind_lift_ok.
  rewrite poke_words_run by done. cbn [fst snd ops with_ops].
  split; [done|]. split; [done|]. split; [|split].
  - unfold read_words. rewrite Hb. cbn [snd]. f_equal.
    rewrite <- (read_words_written dev address ws) at 2 by done. reflexivity.
  - unfold read_block. rewrite Hb. cbn [snd]. f_equal.
    rewrite <- (read_bytes_written dev address ws) at 2. reflexivity.
  - intros x Hx. rewrite read_byte_with_ops. apply read_write_bytes_outside.
    rewrite length_encode. unfold len in Hx. lia.
Qed.

Lemma word_at_bytes (dev dev' : Device) (p j : Z) :
  word_at dev p = word_at dev' p -> 0 <= j < 4 ->
  read_byte dev (p + j) = read_byte dev' (p + j).
Proof.
  unfold word_at. intros Hword Hj.
  pose proof (read_byte_range dev p). pose proof (read_byte_range dev (p + 1)).
  pose proof (read_byte_range dev (p + 2)). pose proof (read_byte_range dev (p + 3)).
  pose proof (read_byte_range dev' p). pose proof (read_byte_range dev' (p + 1)).
  pose proof (read_byte_range dev' (p + 2)). pose proof (read_byte_range dev' (p + 3)).
  assert (j = 0 \/ j = 1 \/ j = 2 \/ j = 3) as [-> | [-> | [-> | ->]]] by lia;
    rewrite ?Z.add_0_r; lia.
Qed.

(** Doing the same read-modify-write again changes nothing when [f]
    absorbs a second application. *)
Lemma modified_twice (f : Z -> Z -> Z) (address : Z) (ws : list Z) (dev : Device)
    (run1 run2 : Device * result unit) :
  (forall v w, f (f v w) w = f v w) ->
  modified f address ws dev run1 -> modified f address ws run1.1 run2 ->
  forall x : Z, read_byte run2.1 x = read_byte run1.1 x.
Proof.
  intros Hf (_ & _ & Hw1 & _ & _) (_ & _ & Hw2 & Hout2 & _) x.
  destruct (decide (address <= x < address + 4 * len ws)) as [Hin|Hout];
    [|apply Hout2; lia].
  unfold len in Hin.
  destruct (lookup_lt_is_Some_2 ws (Z.to_nat ((x - address) / 4))) as [w Hw].
  { apply Nat2Z.inj_lt. rewrite Z2Nat.id by (apply Z.div_pos; lia).
    apply Z.div_lt_upper_bound; lia. }
  pose proof (Hw2 _ _ Hw) as Hsecond. rewrite (Hw1 _ _ Hw), Hf, <- (Hw1 _ _ Hw) in Hsecond.
  rewrite Z2Nat.id in Hsecond by (apply Z.div_pos; lia).
  pose proof (word_at_bytes _ _ _ ((x - address) mod 4) Hsecond
                ltac:(apply Z.mod_pos_bound; lia)) as Hbyte.
  replace (address + 4 * ((x - address) / 4) + (x - address) mod 4) with x in Hbyte;
    [done|].
  pose proof (Z.div_mod (x - address) 4 ltac:(lia)). lia.
Qed.

(** X20. [orr] and [bic] are idempotent: issuing the same command a
    second time succeeds and leaves every byte as the first one left it. *)
Theorem orr_bic_idempotent (address : Z) (word : list Z) (cell : string) (more : list Z)
    (dev : Device) :
  result_map hexint (Py.split cell) = Ok more ->
  Forall u32 (word ++ more) ->
  in_bounds address (4 * len (word ++ more)) = true ->
  let set1 := (orr address word cell dev).1 in
  let clear1 := (bic address word cell dev).1 in
  ((orr address word cell set1).2 = Ok tt
   /\ forall x : Z, read_byte (orr address word cell set1).1 x = read_byte set1 x)
  /\ ((bic address word cell clear1).2 = Ok tt
      /\ forall x : Z, read_byte (bic address word cell clear1).1 x = read_byte clear1 x).
Proof.
  intros Hcell Hws Hb set1 clear1. split.
  - pose proof (orr_modified address word cell more dev Hcell Hws Hb) as H1.
    pose proof (orr_modified address word cell more set1 Hcell Hws Hb) as H2.
    split; [apply H2|]. apply (modified_twice or_word address (word ++ more) dev _ _); try done.
    intros v w. unfold or_word. by rewrite <- Z.lor_assoc, Z.lor_diag.
  - pose proof (bic_modified address word cell more dev Hcell Hws Hb) as H1.
    pose proof (bic_modified address word cell more clear1 Hcell Hws Hb) as H2.
    split; [apply H2|]. apply (modified_twice bic_word address (word ++ more) dev _ _); try done.
    intros v w. unfold bic_word. by rewrite <- Z.land_assoc, Z.land_diag.
Qed.

End Patches.

End Coverage.

(** ** More runs on the bench *)
Module CoverageRuns.
Import Mem Shell Scsi Words Bench Coverage.

Ltac in_range := unfold not_byte; unfold valid_base, overlay_limit, u32, is_byte; lia.
Ltac all_in_range :=
  repeat (apply List.Forall_cons; [in_range|]); apply List.Forall_nil.

(** [asmf 1000 nop] is [wrf 1000 46c0]. *)
Lemma asmf_is_assemble_then_wrf_run :
  @asmf bench 0x1000 ["nop"] EmptyString tt default_va fresh
  = @wrf bench 0x1000 [0x46c0] EmptyString default_va fresh.
Proof.
  apply (@asmf_is_assemble_then_wrf bench 0x1000 default_va ["nop"] EmptyString tt
           [0xc0; 0x46] fresh eq_refl).
Defined.

Lemma wrf_is_ovl_wr_ovl_run :
  @wrf bench 0xc9740 [0x55555555] "1 2" default_va fresh
  = (let* _ := ovl (Some default_va) 3 in
     let* _ := @wr bench default_va [0x55555555; 1; 2] EmptyString in
     let* _ := ovl (Some 0xc9740) 3 in
     ret tt) fresh.
Proof.
  apply (@wrf_is_ovl_wr_ovl bench 0xc9740 default_va [0x55555555] "1 2"
           [0x55555555; 1; 2] fresh eq_refl).
Defined.

(** A cell with a word that is no number. *)
Lemma bad_cell_word_run : @orr bench 0x100 [1] "2 zz" fresh = (fresh, Err ValueError).
Proof.
  apply (@bad_cell_word_sends_nothing bench 0x100 default_va [1] "2 zz" ValueError fresh
           eq_refl).
Defined.

Lemma blank_cell_run :
  @wr bench 0x100 [1] "  " fresh = @wr bench 0x100 [1] EmptyString fresh.
Proof.
  apply (@blank_cell_is_line_mode bench 0x100 default_va [1] "  " fresh eq_refl).
Defined.

(** No word, and an address far beyond the 32 bits. *)
Lemma orr_bic_without_words_run :
  @orr bench (2 ^ 40) [] EmptyString fresh = (fresh, Ok tt).
Proof.
  apply (@orr_bic_without_words bench (2 ^ 40) EmptyString fresh eq_refl).
Defined.

Lemma bad_byte_run :
  exists e : error,
    @find bench 0x1000 3 [0xAA; 0x100] three_aa = (three_aa, Err e)
    /\ @sc bench 0 [0xAA; 0x100] three_aa = (three_aa, Err e)
    /\ (exists b : Z, b ∈ [0xAA; 0x100] /\ not_byte b /\ Py.chr b = Err e)
    /\ (e = ValueError \/ e = OverflowError)
    /\ (Forall (fun b => Py.fits_long b = true) [0xAA; 0x100] -> e = ValueError).
Proof.
  apply (@bad_byte_sends_nothing bench 0x1000 3 0 [0xAA; 0x100] three_aa).
  apply Exists_cons_tl, Exists_cons_hd. in_range.
Defined.

Lemma sc_read_is_sc_run :
  @sc_read bench 0x10 2 fresh
  = @sc bench (2 * 2048) ([0xA8; 0] ++ Spec.be32 0x10 ++ Spec.be32 2) fresh.
Proof.
  apply (@sc_read_is_sc bench 0x10 2 fresh ltac:(in_range) ltac:(in_range)).
Defined.

Lemma sc_read_needs_32_bits_run :
  @sc_read bench (2 ^ 32) 1 fresh = (fresh, Err StructError).
Proof.
  apply (@sc_read_needs_32_bits bench (2 ^ 32) 1 fresh).
  intros [Hlba _]. revert Hlba. in_range.
Defined.

Lemma ea_failure_run :
  @ea bench "bad" tt 0 (mkGlobals fresh (Some 7) (Some 8))
  = (mkGlobals fresh (Some 7) (Some 8), Err (UsageError "unknown instruction")).
Proof.
  apply (@ea_failure_keeps_registers bench "bad" tt 0 (mkGlobals fresh (Some 7) (Some 8))
           fresh (CodeError "unknown instruction") eq_refl).
Defined.

Lemma ea_keeps_registers_paired_run :
  paired (@ea bench "next" tt 0 (mkGlobals fresh None None)).1.
Proof.
  apply (@ea_keeps_registers_paired bench "next" tt 0 (mkGlobals fresh None None)).
  unfold paired. cbn. split; intros [x Hx]; discriminate Hx.
Defined.

Lemma eject_and_sense_run :
  ops (@eject bench fresh).1 = ops fresh ++ [OpScsi [0x1b; 0; 0; 0; 2] 0].
Proof.
  apply (@eject_and_sense_commands bench fresh (fun s v Hs => Hs)).
Defined.

Lemma fc_listing_run :
  exists out : list string,
    fc "  " None {["x " := "x = 1;"]} = Ok ({["x " := "x = 1;"]}, out)
    /\ out = concat ((fun kv => [fc_banner kv.1; kv.2; EmptyString])
                       <$> map_to_list ({["x " := "x = 1;"]} : gmap string string))
    /\ length out = (3 * size ({["x " := "x = 1;"]} : gmap string string))%nat
    /\ (forall (key text : string),
          ({["x " := "x = 1;"]} : gmap string string) !! key = Some text ->
          exists before after : list string,
            out = before ++ [fc_banner key; text; EmptyString] ++ after).
Proof.
  apply (fc_listing_changes_nothing "  " None {["x " := "x = 1;"]} eq_refl eq_refl).
Defined.

Lemma fc_line_key_shape_run :
  contains "{" "x " = false /\ contains "=" "x " = false
  /\ starts "x " (Py.join " " (Py.split "x  = 1")) = true.
Proof.
  apply (fc_line_key_shape "x  = 1" ∅ (<["x " := "x  = 1;"]> ∅) [] "x ").
  - reflexivity.
  - vm_compute. discriminate.
Defined.

Lemma normalized_line_same_key_run :
  Py.split (Py.join " " (Py.split "int   x = 1")) = Py.split "int   x = 1".
Proof.
  apply (normalized_line_same_key "int   x = 1" None ∅ "int x " eq_refl).
Defined.

Lemma fc_blank_header_run :
  fc "  " (Some "int x") ∅
  = Ok (<[EmptyString := Spec.body_of "  " (Some "int x")]> ∅, []).
Proof.
  apply (fc_blank_header "  " "int x" ∅ eq_refl eq_refl).
Defined.

Lemma wr_then_read_run :
  (read_words 0x100 2 (@wr bench 0x100 [1] "2" fresh).1).2 = Ok [1; 2].
Proof.
  apply (@wr_then_read bench 0x100 [1] "2" [1; 2] fresh eq_refl ltac:(all_in_range) eq_refl).
Defined.

Lemma orr_bic_idempotent_run :
  (@orr bench 0x100 [1] "2 3" (@orr bench 0x100 [1] "2 3" fresh).1).2 = Ok tt.
Proof.
  apply (@orr_bic_idempotent bench 0x100 [1] "2 3" [2; 3] fresh
           eq_refl ltac:(all_in_range) eq_refl).
Defined.

End CoverageRuns.
